(** * cucu: the HTML report aggregation of [cucu.reporter.html]

    A shallow embedding of [process_tags] and of the aggregation phase of
    [generate] (src/cucu/reporter/html.py), with the properties of the
    report model stated and proved against it.

    After the aggregation come [escape] and the [urlencode] that
    [generate] hands to the templates, and the completion of steps of
    [cucu.language_server.core] (src/cucu/language_server/core.py):
    [load_cucu_steps], [find_completions] and the handler [completions].

    Conventions of the embedding.
    - Python [str] values are [string]s, read as sequences of UTF-8 bytes.
    - Python [int]s and the JSON durations are [Z] (exact numbers in one
      fixed unit); the rounding of float addition is not represented.
    - A [datetime] is a count of microseconds on one time line, a
      [timedelta] their difference.
    - The dictionaries decoded from a run file are records; a key that the
      code tests with [in], or that it adds, is an [option] field.
    - The file system is a finite map from literal path strings to nodes;
      paths are compared as written (no [.], [..], links or repeated
      separators).
    - An exception is a value of [exception]; a computation that may raise
      returns in a [sum], and the code that touches the file system, the
      logger or the locals living across loop turns runs in the monad [M]. *)

From stdpp Require Import gmap strings list fin_maps.
From Stdlib Require Import Ascii ZArith Lia DecimalString.
From Stdlib Require Import Sorted.

Open Scope string_scope.
Open Scope Z_scope.

(** ** Python strings *)

Module Str.

(** [s.startswith(p)] *)
Definition startswith (s p : string) : bool := String.prefix p s.

(** [s[n:]] *)
Fixpoint drop (n : nat) (s : string) : string :=
  match n, s with
  | O, _ => s
  | S _, EmptyString => EmptyString
  | S n', String _ s' => drop n' s'
  end.

(** [needle in s] *)
Fixpoint contains (needle s : string) : bool :=
  String.prefix needle s
  || match s with
     | EmptyString => false
     | String _ s' => contains needle s'
     end.

(** [s.replace(a, b)] for one-character [a] and [b] *)
Fixpoint replace (a b : ascii) (s : string) : string :=
  match s with
  | EmptyString => EmptyString
  | String c s' => String (if Ascii.eqb c a then b else c) (replace a b s')
  end.

(** [s.removeprefix(p)] *)
Definition removeprefix (s p : string) : string :=
  if startswith s p then drop (String.length p) s else s.

(** [sep.join(l)] *)
Definition join (sep : string) (l : list string) : string :=
  String.concat sep l.

(** [f"{n}"] for an [int] *)
Definition of_int (n : Z) : string := NilZero.string_of_int (Z.to_int n).

(** the characters of [s], as Python iterates a [str] *)
Fixpoint chars (s : string) : list string :=
  match s with
  | EmptyString => []
  | String c s' => String c EmptyString :: chars s'
  end.

(** [s.rstrip("/")] *)
Fixpoint rstrip_slash (s : string) : string :=
  match s with
  | EmptyString => EmptyString
  | String c s' =>
      match rstrip_slash s' with
      | EmptyString => if Ascii.eqb c "/"%char then EmptyString else String c EmptyString
      | r => String c r
      end
  end.

End Str.

(** ** [os.path], [urllib.parse] *)

Abbreviation path := string (only parsing).

(** [posixpath.join(a, b)] *)
Definition os_path_join (a b : path) : path :=
  if Str.startswith b "/" then b
  else if (String.eqb a "" || Str.startswith (String.rev a) "/")%bool then a +:+ b
  else a +:+ "/" +:+ b.

(** [posixpath.join(a, b, c)]: the rule of [join] applied left to right *)
Definition os_path_join3 (a b c : path) : path :=
  os_path_join (os_path_join a b) c.

(** the text after the last separator, scanning with the pending tail [acc] *)
Fixpoint basename_from (acc s : string) : string :=
  match s with
  | EmptyString => acc
  | String c s' =>
      if Ascii.eqb c "/"%char then basename_from "" s'
      else basename_from (acc +:+ String c "") s'
  end.

(** [posixpath.basename(p)] *)
Definition os_path_basename (p : path) : string := basename_from "" p.

(** [posixpath.split(p)]: head without its trailing separators (unless it is
    made of separators only) and the base name *)
Definition os_path_split (p : path) : path * string :=
  let tail := os_path_basename p in
  let head :=
    String.substring 0 (String.length p - String.length tail) p in
  (match Str.rstrip_slash head with
   | EmptyString => head
   | h => h
   end, tail).

Definition hex_digit (n : N) : ascii :=
  (if n <? 10 then Ascii.ascii_of_N (48 + n) else Ascii.ascii_of_N (55 + n))%N.

(** the bytes [quote] never escapes: letters, digits and [_.-~], and its
    default [safe="/"] *)
Definition quote_safe (c : ascii) : bool :=
  let n := Ascii.N_of_ascii c in
  ((65 <=? n) && (n <=? 90) || (97 <=? n) && (n <=? 122)
   || (48 <=? n) && (n <=? 57)
   || (n =? 95) || (n =? 46) || (n =? 45) || (n =? 126) || (n =? 47))%N%bool.

(** [urllib.parse.quote(s)] *)
Fixpoint urllib_parse_quote (s : string) : string :=
  match s with
  | EmptyString => EmptyString
  | String c s' =>
      if quote_safe c then String c (urllib_parse_quote s')
      else
        let n := Ascii.N_of_ascii c in
        String "%"%char (String (hex_digit (n / 16)) (String (hex_digit (n mod 16))
          (urllib_parse_quote s')))
  end.

(** [fnmatch] for patterns made of literal characters and [*] *)
Fixpoint fnmatch (pat : string) : string -> bool :=
  match pat with
  | EmptyString => fun name => String.eqb name ""
  | String c pat' =>
      if Ascii.eqb c "*"%char then
        fix star (name : string) : bool :=
          fnmatch pat' name
          || match name with
             | EmptyString => false
             | String _ name' => star name'
             end
      else
        fun name =>
          match name with
          | EmptyString => false
          | String d name' => Ascii.eqb c d && fnmatch pat' name'
          end
  end.

(** ** Exceptions *)

Inductive exc_kind :=
| FileNotFoundError | IsADirectoryError | NotADirectoryError | FileExistsError
| ValueError | TypeError | KeyError | UnboundLocalError | OtherError.

(** an exception: its class and its message, [str(exception)] *)
Inductive exception := Raise (kind : exc_kind) (msg : string).

Definition exc_str (e : exception) : string :=
  match e with Raise _ msg => msg end.

(** ** The file system *)

Inductive node := File (content : string) | Dir.

Abbreviation filesystem := (gmap string node) (only parsing).

Definition os_path_exists (fs : filesystem) (p : path) : bool :=
  match fs !! p with Some _ => true | None => false end.

Definition os_path_isdir (fs : filesystem) (p : path) : bool :=
  match fs !! p with Some Dir => true | _ => false end.

(** the name of [p] when it is an entry directly in directory [d] *)
Definition entry_name (d p : path) : option string :=
  let pre := os_path_join d "" in
  if Str.startswith p pre then
    let name := Str.drop (String.length pre) p in
    if (String.eqb name "" || Str.contains "/" name)%bool then None else Some name
  else None.

(** [os.scandir(d)]: the names found directly in [d] *)
Definition listdir (fs : filesystem) (d : path) : list string :=
  omap (fun '(p, _) => entry_name d p) (map_to_list fs).

(** [glob.iglob(pathname)] where only the last component is a pattern: the
    directory part is taken literally; names starting with a dot are left
    out, as the patterns of this program do not start with one. *)
Definition glob_iglob (fs : filesystem) (pathname : path) : list path :=
  let '(dirname, pattern) := os_path_split pathname in
  if os_path_isdir fs dirname then
    map (os_path_join dirname)
        (filter (fun name => negb (Str.startswith name ".") && fnmatch pattern name = true)
                (listdir fs dirname))
  else [].

(** where [p] lies under [src]: [Some ""] for [src] itself, [Some "/x/y"] below *)
Definition under (src p : path) : option string :=
  if String.eqb p src then Some ""
  else if Str.startswith p (os_path_join src "") then
    Some ("/" +:+ Str.drop (String.length (os_path_join src "")) p)
  else None.

(** [shutil.copytree(src, dst, dirs_exist_ok=...)]: every node found at or
    below [src] is written at the same place below [dst]. The directories
    that [os.makedirs] would create above [dst] are not recorded. *)
Definition shutil_copytree (src dst : path) (dirs_exist_ok : bool)
    (fs : filesystem) : exception + gmap string node :=
  match fs !! src with
  | None => inl (Raise FileNotFoundError src)
  | Some (File _) => inl (Raise NotADirectoryError src)
  | Some Dir =>
      if os_path_exists fs dst && negb dirs_exist_ok
      then inl (Raise FileExistsError dst)
      else inr (foldr (fun '(p, n) acc =>
                         match under src p with
                         | Some rel => <[dst +:+ rel := n]> acc
                         | None => acc
                         end) fs (map_to_list fs))
  end.

(** [open(p, "rb").read()] and [Path(p).read_text()] *)
Definition read_file (fs : filesystem) (p : path) : exception + string :=
  match fs !! p with
  | None => inl (Raise FileNotFoundError p)
  | Some Dir => inl (Raise IsADirectoryError p)
  | Some (File c) => inr c
  end.

(** [Path(p).write_text(c)] *)
Definition write_text (p : path) (c : string) (fs : filesystem)
    : exception + gmap string node :=
  match fs !! p with
  | Some Dir => inl (Raise IsADirectoryError p)
  | _ =>
      if os_path_isdir fs (fst (os_path_split p))
      then inr (<[p := File c]> fs)
      else inl (Raise FileNotFoundError p)
  end.

(** ** The report tree *)

(** microseconds since the epoch *)
Definition datetime := Z.

(** [datetime.utcfromtimestamp((t - anchor).total_seconds())]: the
    [datetime] lying [t - anchor] after the epoch *)
Definition time_offset_from (anchor t : datetime) : datetime := t - anchor.

(** a value that is text in the run file and a [datetime] once parsed *)
Inductive timeval := TimeStr (s : string) | TimeAt (t : datetime).

(** the [tags] key: a list in the run file, the display text afterwards *)
Inductive tags_field := TagList (tags : list string) | TagText (text : string).

(** the [text] key of a step *)
Inductive text_field := TextStr (s : string) | TextLines (lines : list string).

Record table := { rows : list (list string); headings : list string }.

(** the [table] key of a step *)
Inductive table_field := TableData (t : table) | TableText (s : string).

Record Result := {
  r_status : string;
  r_timestamp : timeval;
  r_duration : Z;
  r_time_offset : option datetime;
  r_error_message : option (list (option string));
}.

Record Step := {
  s_name : string;
  s_heading_level : option string;
  s_image : option string;
  s_result : option Result;
  s_text : option text_field;
  s_table : option table_field;
}.

Record LogFile := { lf_filepath : string; lf_name : string }.

Record Scenario := {
  sc_name : string;
  sc_status : option string;
  sc_tags : option tags_field;
  sc_steps : list Step;
  sc_sub_headers : option string;
  sc_logs : option (list LogFile);
  sc_total_steps : option Z;
  sc_started_at : option timeval;
  sc_time_offset : option datetime;
  sc_duration : option Z;
}.

Record Feature := {
  f_name : string;
  f_status : string;
  f_tags : option tags_field;
  f_elements : option (list Scenario);
  f_started_at : option timeval;
  f_total_steps : option Z;
  f_duration : option Z;
  f_total_scenarios : option Z;
  f_total_scenarios_passed : option Z;
  f_total_scenarios_failed : option Z;
  f_total_scenarios_skipped : option Z;
}.

(** *** Item assignment, [d[key] = v] *)

Definition set_r_timestamp (v : timeval) (r : Result) : Result :=
  {| r_status := r_status r; r_timestamp := v; r_duration := r_duration r;
     r_time_offset := r_time_offset r; r_error_message := r_error_message r |}.

Definition set_r_time_offset (v : datetime) (r : Result) : Result :=
  {| r_status := r_status r; r_timestamp := r_timestamp r;
     r_duration := r_duration r; r_time_offset := Some v;
     r_error_message := r_error_message r |}.

Definition set_r_error_message (v : list (option string)) (r : Result) : Result :=
  {| r_status := r_status r; r_timestamp := r_timestamp r;
     r_duration := r_duration r; r_time_offset := r_time_offset r;
     r_error_message := Some v |}.

Definition set_s_heading_level (v : string) (s : Step) : Step :=
  {| s_name := s_name s; s_heading_level := Some v; s_image := s_image s;
     s_result := s_result s; s_text := s_text s; s_table := s_table s |}.

Definition set_s_image (v : string) (s : Step) : Step :=
  {| s_name := s_name s; s_heading_level := s_heading_level s;
     s_image := Some v; s_result := s_result s; s_text := s_text s;
     s_table := s_table s |}.

Definition set_s_result (v : Result) (s : Step) : Step :=
  {| s_name := s_name s; s_heading_level := s_heading_level s;
     s_image := s_image s; s_result := Some v; s_text := s_text s;
     s_table := s_table s |}.

Definition set_s_text (v : text_field) (s : Step) : Step :=
  {| s_name := s_name s; s_heading_level := s_heading_level s;
     s_image := s_image s; s_result := s_result s; s_text := Some v;
     s_table := s_table s |}.

Definition set_s_table (v : table_field) (s : Step) : Step :=
  {| s_name := s_name s; s_heading_level := s_heading_level s;
     s_image := s_image s; s_result := s_result s; s_text := s_text s;
     s_table := Some v |}.

Definition set_sc_tags (v : tags_field) (x : Scenario) : Scenario :=
  {| sc_name := sc_name x; sc_status := sc_status x; sc_tags := Some v;
     sc_steps := sc_steps x; sc_sub_headers := sc_sub_headers x;
     sc_logs := sc_logs x; sc_total_steps := sc_total_steps x;
     sc_started_at := sc_started_at x; sc_time_offset := sc_time_offset x;
     sc_duration := sc_duration x |}.

Definition set_sc_steps (v : list Step) (x : Scenario) : Scenario :=
  {| sc_name := sc_name x; sc_status := sc_status x; sc_tags := sc_tags x;
     sc_steps := v; sc_sub_headers := sc_sub_headers x;
     sc_logs := sc_logs x; sc_total_steps := sc_total_steps x;
     sc_started_at := sc_started_at x; sc_time_offset := sc_time_offset x;
     sc_duration := sc_duration x |}.

Definition set_sc_sub_headers (v : string) (x : Scenario) : Scenario :=
  {| sc_name := sc_name x; sc_status := sc_status x; sc_tags := sc_tags x;
     sc_steps := sc_steps x; sc_sub_headers := Some v;
     sc_logs := sc_logs x; sc_total_steps := sc_total_steps x;
     sc_started_at := sc_started_at x; sc_time_offset := sc_time_offset x;
     sc_duration := sc_duration x |}.

Definition set_sc_logs (v : list LogFile) (x : Scenario) : Scenario :=
  {| sc_name := sc_name x; sc_status := sc_status x; sc_tags := sc_tags x;
     sc_steps := sc_steps x; sc_sub_headers := sc_sub_headers x;
     sc_logs := Some v; sc_total_steps := sc_total_steps x;
     sc_started_at := sc_started_at x; sc_time_offset := sc_time_offset x;
     sc_duration := sc_duration x |}.

Definition set_sc_total_steps (v : Z) (x : Scenario) : Scenario :=
  {| sc_name := sc_name x; sc_status := sc_status x; sc_tags := sc_tags x;
     sc_steps := sc_steps x; sc_sub_headers := sc_sub_headers x;
     sc_logs := sc_logs x; sc_total_steps := Some v;
     sc_started_at := sc_started_at x; sc_time_offset := sc_time_offset x;
     sc_duration := sc_duration x |}.

Definition set_sc_started_at (v : timeval) (x : Scenario) : Scenario :=
  {| sc_name := sc_name x; sc_status := sc_status x; sc_tags := sc_tags x;
     sc_steps := sc_steps x; sc_sub_headers := sc_sub_headers x;
     sc_logs := sc_logs x; sc_total_steps := sc_total_steps x;
     sc_started_at := Some v; sc_time_offset := sc_time_offset x;
     sc_duration := sc_duration x |}.

Definition set_sc_time_offset (v : datetime) (x : Scenario) : Scenario :=
  {| sc_name := sc_name x; sc_status := sc_status x; sc_tags := sc_tags x;
     sc_steps := sc_steps x; sc_sub_headers := sc_sub_headers x;
     sc_logs := sc_logs x; sc_total_steps := sc_total_steps x;
     sc_started_at := sc_started_at x; sc_time_offset := Some v;
     sc_duration := sc_duration x |}.

Definition set_sc_duration (v : Z) (x : Scenario) : Scenario :=
  {| sc_name := sc_name x; sc_status := sc_status x; sc_tags := sc_tags x;
     sc_steps := sc_steps x; sc_sub_headers := sc_sub_headers x;
     sc_logs := sc_logs x; sc_total_steps := sc_total_steps x;
     sc_started_at := sc_started_at x; sc_time_offset := sc_time_offset x;
     sc_duration := Some v |}.

Definition set_f_tags (v : tags_field) (x : Feature) : Feature :=
  {| f_name := f_name x; f_status := f_status x; f_tags := Some v;
     f_elements := f_elements x; f_started_at := f_started_at x;
     f_total_steps := f_total_steps x; f_duration := f_duration x;
     f_total_scenarios := f_total_scenarios x;
     f_total_scenarios_passed := f_total_scenarios_passed x;
     f_total_scenarios_failed := f_total_scenarios_failed x;
     f_total_scenarios_skipped := f_total_scenarios_skipped x |}.

Definition set_f_elements (v : list Scenario) (x : Feature) : Feature :=
  {| f_name := f_name x; f_status := f_status x; f_tags := f_tags x;
     f_elements := Some v; f_started_at := f_started_at x;
     f_total_steps := f_total_steps x; f_duration := f_duration x;
     f_total_scenarios := f_total_scenarios x;
     f_total_scenarios_passed := f_total_scenarios_passed x;
     f_total_scenarios_failed := f_total_scenarios_failed x;
     f_total_scenarios_skipped := f_total_scenarios_skipped x |}.

Definition set_f_started_at (v : timeval) (x : Feature) : Feature :=
  {| f_name := f_name x; f_status := f_status x; f_tags := f_tags x;
     f_elements := f_elements x; f_started_at := Some v;
     f_total_steps := f_total_steps x; f_duration := f_duration x;
     f_total_scenarios := f_total_scenarios x;
     f_total_scenarios_passed := f_total_scenarios_passed x;
     f_total_scenarios_failed := f_total_scenarios_failed x;
     f_total_scenarios_skipped := f_total_scenarios_skipped x |}.

(** the six assignments that end the turn of the feature loop *)
Definition set_f_rollup (steps duration total passed failed skipped : Z)
    (x : Feature) : Feature :=
  {| f_name := f_name x; f_status := f_status x; f_tags := f_tags x;
     f_elements := f_elements x; f_started_at := f_started_at x;
     f_total_steps := Some steps; f_duration := Some duration;
     f_total_scenarios := Some total;
     f_total_scenarios_passed := Some passed;
     f_total_scenarios_failed := Some failed;
     f_total_scenarios_skipped := Some skipped |}.

(** the elements on which [process_tags] is called *)
Class Element (E : Type) := {
  get_tags : E -> option tags_field;
  set_tags : tags_field -> E -> E;
}.

#[export] Instance scenario_element : Element Scenario :=
  {| get_tags := sc_tags; set_tags := set_sc_tags |}.

#[export] Instance feature_element : Element Feature :=
  {| get_tags := f_tags; set_tags := set_f_tags |}.

(** ** What the module imports and reads from [CONFIG] *)

Class Externals := {
  (** [json.loads], on the body of a run file: the features that
      [features += ...] receives, or the exception raised on the way. A
      body that decodes to something else than a list of feature objects
      is not represented. *)
  json_loads : string -> exception + list Feature;
  (** [datetime.fromisoformat]; [None] when it raises [ValueError] *)
  fromisoformat : string -> option datetime;
  (** [cucu.reporter.parser.parse_log_to_html] *)
  parse_log_to_html : string -> exception + string;
  (** [cucu.format_gherkin_table] *)
  format_gherkin_table : list (list string) -> list string -> string -> string;
  (** [CONFIG["__CUCU_HTML_REPORT_TAG_HANDLERS"].items()]: each compiled
      pattern, given by its [match] test, with its handler *)
  TAG_HANDLERS : list ((string -> bool) * (string -> string));
  (** [CONFIG["__CUCU_HTML_REPORT_SCENARIO_SUBHEADER_HANDLER"]] *)
  SCENARIO_SUBHEADER_HANDLER : list (Scenario -> string);
  (** [os.path.dirname(sys.modules["cucu"].__file__)] *)
  cucu_dir : path;
}.

(** ** Computations that may raise *)

Definition bind_exc {A B : Type} (m : exception + A) (k : A -> exception + B)
    : exception + B :=
  match m with
  | inl e => inl e
  | inr a => k a
  end.

Notation "'let?' x ':=' m 'in' k" := (bind_exc m (fun x => k))
  (at level 10, x pattern, m at level 100, k at level 200).

Inductive level := INFO | WARNING.

(** What a run of [generate] can change: the file system, the records
    handed to [logger], and [log_files], the one local of [generate] that
    is read in a loop turn that may not have assigned it ([None]: not yet
    bound). *)
Record state := {
  st_fs : gmap string node;
  st_log : list (level * string);
  st_log_files : option (list LogFile);
}.

Definition M (A : Type) : Type := state -> exception + (A * state).

Definition ret {A : Type} (a : A) : M A := fun st => inr (a, st).

Definition bind {A B : Type} (m : M A) (k : A -> M B) : M B :=
  fun st =>
    match m st with
    | inl e => inl e
    | inr (a, st') => k a st'
    end.

Notation "'let*' x ':=' m 'in' k" := (bind m (fun x => k))
  (at level 10, x pattern, m at level 100, k at level 200).

Notation "m ';;;' k" := (bind m (fun _ => k))
  (at level 100, k at level 200, right associativity).

Definition lift {A : Type} (r : exception + A) : M A :=
  fun st =>
    match r with
    | inl e => inl e
    | inr a => inr (a, st)
    end.

Definition get_fs : M (gmap string node) := fun st => inr (st_fs st, st).

(** a file-system operation run on the current file system *)
Definition on_fs (op : gmap string node -> exception + gmap string node) : M unit :=
  fun st =>
    match op (st_fs st) with
    | inl e => inl e
    | inr fs' =>
        inr (tt, {| st_fs := fs'; st_log := st_log st;
                    st_log_files := st_log_files st |})
    end.

Definition logger (lvl : level) (msg : string) : M unit :=
  fun st =>
    inr (tt, {| st_fs := st_fs st; st_log := st_log st ++ [(lvl, msg)];
                st_log_files := st_log_files st |}).

(** [log_files = v] *)
Definition assign_log_files (v : list LogFile) : M unit :=
  fun st =>
    inr (tt, {| st_fs := st_fs st; st_log := st_log st;
                st_log_files := Some v |}).

(** reading the local [log_files] *)
Definition read_log_files : M (list LogFile) :=
  fun st =>
    match st_log_files st with
    | Some v => inr (v, st)
    | None => inl (Raise UnboundLocalError "log_files")
    end.

(** [sum([x[key] for x in l])]: the items are fetched first, [KeyError] when
    one is missing, and added from [0] on *)
Fixpoint getitems {X : Type} (key : string) (get : X -> option Z) (l : list X)
    : exception + list Z :=
  match l with
  | [] => inr []
  | x :: l' =>
      match get x with
      | None => inl (Raise KeyError key)
      | Some v => let? vs := getitems key get l' in inr (v :: vs)
      end
  end.

Definition py_sum (vs : list Z) : Z := fold_left Z.add vs 0.

Definition sum_items {X : Type} (key : string) (get : X -> option Z)
    (l : list X) : exception + Z :=
  let? vs := getitems key get l in inr (py_sum vs).

Section Reporter.

Context {ext : Externals}.

(** ** [process_tags] *)

(** the loop over the tag handlers, for one tag *)
Fixpoint for_tag_handlers (handlers : list ((string -> bool) * (string -> string)))
    (tag : string) : string :=
  match handlers with
  | [] => tag
  | (regex_match, handler) :: handlers' =>
      for_tag_handlers handlers'
        (if regex_match tag then handler tag else tag)
  end.

(** what [for tag in element["tags"]] iterates *)
Definition tag_items (v : tags_field) : list string :=
  match v with
  | TagList tags => tags
  | TagText text => Str.chars text
  end.

(** the loop over the tags, appending to [prepared_tags] *)
Fixpoint for_tags (tags : list string) (prepared_tags : list string)
    : list string :=
  match tags with
  | [] => prepared_tags
  | tag :: tags' =>
      let tag := "@" +:+ tag in
      let tag := for_tag_handlers TAG_HANDLERS tag in
      for_tags tags' (prepared_tags ++ [tag])
  end.

Definition process_tags {E : Type} `{Element E} (element : E) : E :=
  match get_tags element with
  | None => element
  | Some v => set_tags (TagText (Str.join " " (for_tags (tag_items v) []))) element
  end.

(** ** [generate]: the loop over the steps of a scenario *)

(** the locals of the scenario turn that the step loop updates *)
Record step_locals := {
  total_steps : Z;
  step_index : Z;
  scenario_started_at : option datetime;
  scenario_duration : Z;
}.

(** the locals as the turn of a scenario sets them: [total_steps = 0],
    [step_index = 0], [scenario_started_at = None],
    [scenario_duration = 0] *)
Definition step_locals_init : step_locals :=
  {| total_steps := 0; step_index := 0; scenario_started_at := None;
     scenario_duration := 0 |}.

(** [status in ["failed", "passed"]] *)
Definition timed (r : Result) : bool :=
  bool_decide (r_status r ∈ ["failed"; "passed"]).

(** [datetime.fromisoformat(step["result"]["timestamp"])] *)
Definition parse_timestamp (v : timeval) : exception + datetime :=
  match v with
  | TimeStr s =>
      match fromisoformat s with
      | Some t => inr t
      | None => inl (Raise ValueError ("Invalid isoformat string: " +:+ s))
      end
  | TimeAt _ => inl (Raise TypeError "fromisoformat: argument must be str")
  end.

(** the body of [if "result" in step] *)
Definition process_result (r : Result) (scenario : Scenario) (l : step_locals)
    : exception + (Result * Scenario * step_locals) :=
  let? (r, scenario, started_at) :=
    if timed r then
      let? timestamp := parse_timestamp (r_timestamp r) in
      let r := set_r_timestamp (TimeAt timestamp) r in
      let '(started_at, scenario) :=
        match scenario_started_at l with
        | None => (timestamp, set_sc_started_at (TimeAt timestamp) scenario)
        | Some t => (t, scenario)
        end in
      let r := set_r_time_offset (time_offset_from started_at timestamp) r in
      inr (r, scenario, Some started_at)
    else inr (r, scenario, scenario_started_at l) in
  let duration := scenario_duration l + r_duration r in
  let r :=
    if bool_decide (r_error_message r = Some [None])
    then set_r_error_message [Some ""] r else r in
  inr (r, scenario,
       {| total_steps := total_steps l; step_index := step_index l;
          scenario_started_at := started_at; scenario_duration := duration |}).

Definition image_filename_of (index : Z) (name : string) : string :=
  Str.of_int index +:+ " - " +:+ Str.replace "/" "_" name +:+ ".png".

Definition text_indent : string := "       ".

(** the three quotes that frame a text block *)
Definition triple_quote : string :=
  let q := Ascii.ascii_of_nat 34 in String q (String q (String q "")).

(** the body of [for step in scenario["steps"]] *)
Definition process_step (fs : gmap string node) (scenario_filepath : path)
    (step : Step) (scenario : Scenario) (l : step_locals)
    : exception + (Step * Scenario * step_locals) :=
  let l := {| total_steps := total_steps l + 1; step_index := step_index l;
              scenario_started_at := scenario_started_at l;
              scenario_duration := scenario_duration l |} in
  let image_filename := image_filename_of (step_index l) (s_name step) in
  let image_filepath := os_path_join scenario_filepath image_filename in
  let step :=
    if Str.startswith (s_name step) "#"
    then set_s_heading_level "h4" step else step in
  let step :=
    if os_path_exists fs image_filepath
    then set_s_image (urllib_parse_quote image_filename) step else step in
  let? (step, scenario, l) :=
    match s_result step with
    | Some r =>
        let? (r, scenario, l) := process_result r scenario l in
        inr (set_s_result r step, scenario, l)
    | None => inr (step, scenario, l)
    end in
  let step :=
    match s_text step with
    | Some (TextStr s) => set_s_text (TextLines [s]) step
    | _ => step
    end in
  let step :=
    match s_text step with
    | Some (TextLines lines) =>
        set_s_text
          (TextStr (Str.join (String (Ascii.ascii_of_nat 10) "")
             ([text_indent +:+ triple_quote]
              ++ map (fun x => text_indent +:+ x) lines
              ++ [text_indent +:+ triple_quote]))) step
    | _ => step
    end in
  let? step :=
    match s_table step with
    | Some (TableData t) =>
        inr (set_s_table
               (TableText (format_gherkin_table (rows t) (headings t) text_indent))
               step)
    | Some (TableText _) =>
        inl (Raise TypeError "string indices must be integers")
    | None => inr step
    end in
  inr (step, scenario,
       {| total_steps := total_steps l; step_index := step_index l + 1;
          scenario_started_at := scenario_started_at l;
          scenario_duration := scenario_duration l |}).

Fixpoint for_steps (fs : gmap string node) (scenario_filepath : path)
    (steps : list Step) (scenario : Scenario) (l : step_locals)
    : exception + (list Step * Scenario * step_locals) :=
  match steps with
  | [] => inr ([], scenario, l)
  | step :: steps' =>
      let? (step, scenario, l) :=
        process_step fs scenario_filepath step scenario l in
      let? (steps', scenario, l) :=
        for_steps fs scenario_filepath steps' scenario l in
      inr (step :: steps', scenario, l)
  end.

(** ** [generate]: the loop over the scenarios of a feature *)

(** the loop over the globbed log files, appending to [log_files] *)
Fixpoint for_log_files (scenario_filepath : path) (globbed : list path)
    (log_files : list LogFile) : list LogFile :=
  match globbed with
  | [] => log_files
  | log_file :: globbed' =>
      let log_filepath := Str.removeprefix log_file (scenario_filepath +:+ "/") in
      let log_filepath :=
        if Str.contains ".console." log_filepath
        then log_filepath +:+ ".html" else log_filepath in
      for_log_files scenario_filepath globbed'
        (log_files ++ [{| lf_filepath := log_filepath;
                          lf_name := os_path_basename log_file |}])
  end.

(** the loop that renders the console logs *)
Fixpoint for_console_logs (scenario_filepath : path) (console : list LogFile)
    : M unit :=
  match console with
  | [] => ret tt
  | log_file :: console' =>
      let log_file_filepath :=
        os_path_join3 scenario_filepath "logs" (lf_name log_file) in
      let* fs := get_fs in
      let* text := lift (read_file fs log_file_filepath) in
      let* html := lift (parse_log_to_html text) in
      on_fs (write_text (log_file_filepath +:+ ".html") html) ;;;
      for_console_logs scenario_filepath console'
  end.

(** the locals of the feature turn that the scenario loop updates *)
Record feature_locals := {
  feature_duration : Z;
  total_scenarios : Z;
  total_scenarios_passed : Z;
  total_scenarios_failed : Z;
  total_scenarios_skipped : Z;
  feature_started_at : option datetime;
}.

Definition feature_locals_init : feature_locals :=
  {| feature_duration := 0; total_scenarios := 0;
     total_scenarios_passed := 0; total_scenarios_failed := 0;
     total_scenarios_skipped := 0; feature_started_at := None |}.

(** the chain [if "status" not in scenario ... elif ...] that increments
    the counters; [total_scenarios] has been incremented before it *)
Definition count_scenario (scenario : Scenario) (l : feature_locals)
    : feature_locals :=
  let total := total_scenarios l + 1 in
  let bump passed failed skipped :=
    {| feature_duration := feature_duration l; total_scenarios := total;
       total_scenarios_passed := total_scenarios_passed l + passed;
       total_scenarios_failed := total_scenarios_failed l + failed;
       total_scenarios_skipped := total_scenarios_skipped l + skipped;
       feature_started_at := feature_started_at l |} in
  match sc_status scenario with
  | None => bump 0 0 1
  | Some status =>
      if bool_decide (status = "passed") then bump 1 0 0
      else if bool_decide (status = "failed") then bump 0 1 0
      else if bool_decide (status = "skipped") then bump 0 0 1
      else bump 0 0 0
  end.

(** the body of [for scenario in scenarios] *)
Definition process_scenario (basepath : path) (scenario : Scenario)
    (feature : Feature) (l : feature_locals)
    : M (Scenario * Feature * feature_locals) :=
  let scenario := process_tags scenario in
  let sub_headers :=
    map (fun handler => handler scenario) SCENARIO_SUBHEADER_HANDLER in
  let scenario := set_sc_sub_headers (Str.join "<br/>" sub_headers) scenario in
  let l := count_scenario scenario l in
  let scenario_filepath :=
    os_path_join3 basepath (f_name feature) (sc_name scenario) in
  let* fs := get_fs in
  let* (steps, scenario, sl) :=
    lift (for_steps fs scenario_filepath (sc_steps scenario) scenario
            step_locals_init) in
  (* the steps were updated in place: the list of the scenario holds them *)
  let scenario := set_sc_steps steps scenario in
  let logs_dir := os_path_join scenario_filepath "logs" in
  let* scenario :=
    if os_path_exists fs logs_dir then
      let log_files :=
        for_log_files scenario_filepath
          (glob_iglob fs (os_path_join logs_dir "*.*")) [] in
      assign_log_files log_files ;;;
      ret (set_sc_logs log_files scenario)
    else ret scenario in
  let scenario := set_sc_total_steps (total_steps sl) scenario in
  let* (scenario, feature, started) :=
    match scenario_started_at sl with
    | None =>
        ret (set_sc_started_at (TimeStr "") scenario, feature,
             feature_started_at l)
    | Some scenario_started_at =>
        let '(feature_started_at, feature) :=
          match feature_started_at l with
          | None => (scenario_started_at,
                     set_f_started_at (TimeAt scenario_started_at) feature)
          | Some t => (t, feature)
          end in
        let scenario :=
          set_sc_time_offset
            (time_offset_from feature_started_at scenario_started_at)
            scenario in
        let* log_files := read_log_files in
        for_console_logs scenario_filepath
          (filter (fun x => Str.contains ".console." (lf_name x) = true) log_files) ;;;
        ret (scenario, feature, Some feature_started_at)
    end in
  let scenario := set_sc_duration (scenario_duration sl) scenario in
  ret (scenario, feature,
       {| feature_duration := feature_duration l + scenario_duration sl;
          total_scenarios := total_scenarios l;
          total_scenarios_passed := total_scenarios_passed l;
          total_scenarios_failed := total_scenarios_failed l;
          total_scenarios_skipped := total_scenarios_skipped l;
          feature_started_at := started |}).

Fixpoint for_scenarios (basepath : path) (scenarios : list Scenario)
    (feature : Feature) (l : feature_locals)
    : M (list Scenario * Feature * feature_locals) :=
  match scenarios with
  | [] => ret ([], feature, l)
  | scenario :: scenarios' =>
      let* (scenario, feature, l) :=
        process_scenario basepath scenario feature l in
      let* (scenarios', feature, l) :=
        for_scenarios basepath scenarios' feature l in
      ret (scenario :: scenarios', feature, l)
  end.

(** ** [generate]: the loop over the features *)

(** [feature["status"] != "untested" and "elements" in feature] *)
Definition has_scenarios (feature : Feature) : bool :=
  bool_decide (f_status feature ≠ "untested")
  && bool_decide (is_Some (f_elements feature)).

(** the list [scenarios] that the turn of a feature goes through *)
Definition scenarios_of (feature : Feature) : list Scenario :=
  if has_scenarios feature then default [] (f_elements feature) else [].

(** [only_failures and feature["status"] != "failed"]: the turn is left *)
Definition dropped (only_failures : bool) (feature : Feature) : bool :=
  only_failures && bool_decide (f_status feature ≠ "failed").

(** the turn of [for feature in features], from the line after the
    [continue]; its value is the feature as the turn leaves it, which is
    the object appended to [reported_features] *)
Definition process_feature (results basepath : path) (feature : Feature)
    : M Feature :=
  let scenarios := scenarios_of feature in
  let aliased := has_scenarios feature in
  let feature := process_tags feature in
  (if bool_decide (f_status feature ∈ ["skipped"; "untested"]) then ret tt
   else
     on_fs (shutil_copytree (os_path_join results (f_name feature))
              (os_path_join basepath (f_name feature)) true)) ;;;
  let* (scenarios, feature, l) :=
    for_scenarios basepath scenarios feature feature_locals_init in
  (* [scenarios] is the very list [feature["elements"]] when it was taken
     from the feature, a fresh empty list otherwise *)
  let feature := if aliased then set_f_elements scenarios feature else feature in
  let feature :=
    match feature_started_at l with
    | None => set_f_started_at (TimeStr "") feature
    | Some _ => feature
    end in
  let* steps := lift (sum_items "total_steps" sc_total_steps scenarios) in
  let* duration := lift (sum_items "duration" sc_duration scenarios) in
  ret (set_f_rollup steps duration (total_scenarios l)
         (total_scenarios_passed l) (total_scenarios_failed l)
         (total_scenarios_skipped l) feature).

Fixpoint for_features (results basepath : path) (only_failures : bool)
    (features : list Feature) (reported_features : list Feature)
    : M (list Feature) :=
  match features with
  | [] => ret reported_features
  | feature :: features' =>
      if dropped only_failures feature then
        for_features results basepath only_failures features' reported_features
      else
        let* feature := process_feature results basepath feature in
        for_features results basepath only_failures features'
          (reported_features ++ [feature])
  end.

(** ** [generate]: reading the run files, the grand totals *)

(** [open(p, "rb")]: the opened file, given by the bytes it holds *)
Definition open_rb (p : path) : M string :=
  let* fs := get_fs in lift (read_file fs p).

(** the loop over the run files; [open] stands outside the [try] *)
Fixpoint for_run_json_filepaths (run_json_filepaths : list path)
    (features : list Feature) : M (list Feature) :=
  match run_json_filepaths with
  | [] => ret features
  | run_json_filepath :: rest =>
      let* index_input := open_rb run_json_filepath in
      match json_loads index_input with
      | inr loaded => for_run_json_filepaths rest (features ++ loaded)
      | inl exception =>
          logger WARNING
            ("unable to read file " +:+ run_json_filepath
             +:+ ", got error: " +:+ exc_str exception) ;;;
          for_run_json_filepaths rest features
      end
  end.

Record Totals := {
  gt_total_scenarios : Z;
  gt_total_scenarios_passed : Z;
  gt_total_scenarios_failed : Z;
  gt_total_scenarios_skipped : Z;
  gt_duration : Z;
}.

(** the loop [for k in keys] *)
Definition grand_totals_of (reported_features : list Feature)
    : exception + Totals :=
  let? total :=
    sum_items "total_scenarios" f_total_scenarios reported_features in
  let? passed :=
    sum_items "total_scenarios_passed" f_total_scenarios_passed
      reported_features in
  let? failed :=
    sum_items "total_scenarios_failed" f_total_scenarios_failed
      reported_features in
  let? skipped :=
    sum_items "total_scenarios_skipped" f_total_scenarios_skipped
      reported_features in
  let? duration := sum_items "duration" f_duration reported_features in
  inr {| gt_total_scenarios := total; gt_total_scenarios_passed := passed;
         gt_total_scenarios_failed := failed;
         gt_total_scenarios_skipped := skipped; gt_duration := duration |}.

(** what the templates are rendered from *)
Record Report := {
  reported_features : list Feature;
  grand_totals : Totals;
}.

(** the files of [results] that are read *)
Definition load (results : path) : M (list Feature) :=
  let* fs := get_fs in
  let run_json_filepaths := glob_iglob fs (os_path_join results "*run.json") in
  logger INFO
    ("Starting to process "
     +:+ Str.of_int (Z.of_nat (length run_json_filepaths))
     +:+ " files for report") ;;;
  for_run_json_filepaths run_json_filepaths [].

(** [generate(results, basepath, only_failures)], up to the model handed
    to the templates. The progress characters of [CUCU_SHOW_STATUS] and
    the rendering of the pages (jinja2) are left out. *)
Definition generate (results basepath : path) (only_failures : bool)
    : M Report :=
  let* features := load results in
  let external_dir := os_path_join3 cucu_dir "reporter" "external" in
  on_fs (shutil_copytree external_dir (os_path_join basepath "external") false) ;;;
  let* reported := for_features results basepath only_failures features [] in
  let* totals := lift (grand_totals_of reported) in
  ret {| reported_features := reported; grand_totals := totals |}.

(** ** The quantities the properties are stated with *)

(** a step is timed when it has a result of status passed or failed *)
Definition timed_step (step : Step) : bool :=
  match s_result step with
  | Some r => timed r
  | None => false
  end.

(** a scenario none of whose steps is timed *)
Definition untimed (scenario : Scenario) : Prop :=
  Forall (fun step => timed_step step = false) (sc_steps scenario).

(** the parsed timestamp of a timed step *)
Definition timestamp_of (step : Step) : option datetime :=
  match s_result step with
  | Some r =>
      if timed r then
        match parse_timestamp (r_timestamp r) with
        | inr t => Some t
        | inl _ => None
        end
      else None
  | None => None
  end.


(** the timestamp of the first timed step *)
Fixpoint anchor_of (steps : list Step) : option datetime :=
  match steps with
  | [] => None
  | step :: steps' =>
      if timed_step step then timestamp_of step else anchor_of steps'
  end.

(** the anchor once [steps] are gone through, [started] being the anchor
    known before them *)
Definition final_anchor (started : option datetime) (steps : list Step)
    : option datetime :=
  match started with
  | Some a => Some a
  | None => anchor_of steps
  end.

(** [r'] is the timed result [r] with its timestamp parsed and its offset
    from [anchor] *)
Definition timed_result_at (anchor : datetime) (r r' : Result) : Prop :=
  exists t, parse_timestamp (r_timestamp r) = inr t /\
    r_timestamp r' = TimeAt t /\
    r_time_offset r' = Some (time_offset_from anchor t).

(** what the turn of a step does to its result, [started] being the
    anchor known before the turn *)
Definition result_turn (started : option datetime) (r r' : Result) : Prop :=
  r_status r' = r_status r /\ r_duration r' = r_duration r /\
  (if timed r then
     exists t, parse_timestamp (r_timestamp r) = inr t /\
       r_timestamp r' = TimeAt t /\
       r_time_offset r' = Some (time_offset_from (default t started) t)
   else r_timestamp r' = r_timestamp r /\ r_time_offset r' = r_time_offset r).

(** what the loop over the steps does to the result of one step, [anchor]
    being the anchor of the scenario *)
Definition step_timing (anchor : option datetime) (s s' : Step) : Prop :=
  match s_result s with
  | None => s_result s' = None
  | Some r =>
      exists r', s_result s' = Some r' /\
        r_status r' = r_status r /\ r_duration r' = r_duration r /\
        if timed r then exists a, anchor = Some a /\ timed_result_at a r r'
        else r_timestamp r' = r_timestamp r /\
             r_time_offset r' = r_time_offset r
  end.

(** one turn of the loop over the scenarios of the feature named [name] *)
Definition scenario_turn (basepath name : string) (sin sout : Scenario) : Prop :=
  exists f l st f' l' st',
    f_name f = name /\
    process_scenario basepath sin f l st = inr (sout, f', l', st').

(** one turn of the loop over the features, for a feature that is kept *)
Definition feature_turn (results basepath : string) (fin fout : Feature) : Prop :=
  exists st st', process_feature results basepath fin st = inr (fout, st').

(** the features that [only_failures] keeps *)
Definition retained (only_failures : bool) (features : list Feature)
    : list Feature :=
  filter (fun f => dropped only_failures f = false) features.


(** the display text of a tag: the marker, then every handler in order,
    each applied when its pattern matches the text as it stands *)
Definition rewrite_tag (tag : string)
    (rule : (string -> bool) * (string -> string)) : string :=
  if rule.1 tag then rule.2 tag else tag.

Definition display_tag (tag : string) : string :=
  fold_left rewrite_tag TAG_HANDLERS ("@" +:+ tag).

(** the display text of a tag as the specification words it: the marker,
    then the handler of the first rule whose pattern matches, and no
    other *)
Fixpoint first_match_only (rules : list ((string -> bool) * (string -> string)))
    (tag : string) : string :=
  match rules with
  | [] => tag
  | (regex_match, handler) :: rules' =>
      if regex_match tag then handler tag else first_match_only rules' tag
  end.

Definition display_tag_first_match (tag : string) : string :=
  first_match_only TAG_HANDLERS ("@" +:+ tag).



End Reporter.

(** the sum of a list of numbers *)
Definition Zsum (l : list Z) : Z := foldr Z.add 0 l.


(** how many elements of [l] satisfy [P] *)
Definition count {X : Type} (P : X -> bool) (l : list X) : Z :=
  Z.of_nat (length (filter (fun x => P x = true) l)).

Definition bit (b : bool) : Z := if b then 1 else 0.

(** the classes of scenarios, by status; a scenario without status is
    classed with the skipped ones *)
Definition is_passed (scenario : Scenario) : bool :=
  bool_decide (sc_status scenario = Some "passed").

Definition is_failed (scenario : Scenario) : bool :=
  bool_decide (sc_status scenario = Some "failed").

Definition is_skipped (scenario : Scenario) : bool :=
  bool_decide (sc_status scenario = None \/ sc_status scenario = Some "skipped").


(** the fields of a scenario that the loop over its steps starts from *)
Definition same_input (a b : Scenario) : Prop :=
  sc_name a = sc_name b /\ sc_status a = sc_status b /\
  sc_steps a = sc_steps b /\ sc_started_at a = sc_started_at b /\
  sc_time_offset a = sc_time_offset b /\ sc_logs a = sc_logs b.

(** a computation fails when it yields an exception *)
Definition fails {A : Type} (r : exception + A) : Prop := exists e, r = inl e.


(** each grand total is the sum of that key over [reported] *)
Definition sums_over (reported : list Feature)
    (totals : Totals) : Prop :=
  gt_total_scenarios totals = Zsum (omap f_total_scenarios reported) /\
  gt_total_scenarios_passed totals
    = Zsum (omap f_total_scenarios_passed reported) /\
  gt_total_scenarios_failed totals
    = Zsum (omap f_total_scenarios_failed reported) /\
  gt_total_scenarios_skipped totals
    = Zsum (omap f_total_scenarios_skipped reported) /\
  gt_duration totals = Zsum (omap f_duration reported).

(** ** Runs used as examples *)

Module Demo.

Definition result_of (status timestamp : string) (duration : Z) : Result :=
  {| r_status := status; r_timestamp := TimeStr timestamp;
     r_duration := duration; r_time_offset := None;
     r_error_message := None |}.

Definition step_of (name : string) (r : option Result) : Step :=
  {| s_name := name; s_heading_level := None; s_image := None;
     s_result := r; s_text := None; s_table := None |}.

Definition scenario_of (name : string) (status : option string)
    (tags : option (list string)) (steps : list Step) : Scenario :=
  {| sc_name := name; sc_status := status; sc_tags := TagList <$> tags;
     sc_steps := steps; sc_sub_headers := None; sc_logs := None;
     sc_total_steps := None; sc_started_at := None;
     sc_time_offset := None; sc_duration := None |}.

Definition feature_of (name status : string) (tags : option (list string))
    (elements : option (list Scenario)) : Feature :=
  {| f_name := name; f_status := status; f_tags := TagList <$> tags;
     f_elements := elements; f_started_at := None; f_total_steps := None;
     f_duration := None; f_total_scenarios := None;
     f_total_scenarios_passed := None; f_total_scenarios_failed := None;
     f_total_scenarios_skipped := None |}.

Definition quoted (s : string) : string :=
  let q := String (Ascii.ascii_of_nat 34) "" in q +:+ s +:+ q.

(** three instants, one second and then five minutes apart *)
Definition at_10_00_00 : string := "2023-05-01T10:00:00".
Definition at_10_00_01 : string := "2023-05-01T10:00:01".
Definition at_10_05_00 : string := "2023-05-01T10:05:00".

Definition valid_credentials : Scenario :=
  scenario_of "Valid credentials" (Some "passed") (Some ["fast"])
    [step_of "I open the page" (Some (result_of "passed" at_10_00_00 1000));
     step_of "I click /submit" (Some (result_of "passed" at_10_00_01 2000));
     step_of "I see the banner" (Some (result_of "skipped" "" 7))].

Definition remember_me : Scenario :=
  scenario_of "Remember me" None None [step_of "I tick the box" None].

Definition login : Feature :=
  feature_of "Login" "passed" (Some ["smoke"; "ui"])
    (Some [valid_credentials; remember_me]).

Definition sketch : Scenario :=
  scenario_of "Sketch" (Some "passed") None
    [step_of "I draw" (Some (result_of "passed" "soon" 40))].

Definition draft : Feature :=
  feature_of "Draft" "untested" None (Some [sketch]).

Definition leave : Scenario :=
  scenario_of "Leave" (Some "failed") None
    [step_of "I log out" (Some (result_of "failed" at_10_05_00 500))].

Definition logout : Feature :=
  feature_of "Logout" "failed" None (Some [leave]).

(** a run stopped at its first failure: the scenarios left are untested *)
Definition pay : Scenario :=
  scenario_of "Pay" (Some "failed") None
    [step_of "I pay" (Some (result_of "failed" at_10_00_00 300))].

Definition refund : Scenario :=
  scenario_of "Refund" (Some "untested") None [step_of "I ask a refund" None].

Definition checkout : Feature :=
  feature_of "Checkout" "failed" None (Some [pay; refund]).

Definition click_submit : string := "click " +:+ quoted "Submit".

Definition send : Scenario :=
  scenario_of "Send" (Some "passed") None
    [step_of "I open the form" (Some (result_of "passed" at_10_00_00 10));
     step_of "I fill it" (Some (result_of "passed" at_10_00_01 20));
     step_of click_submit (Some (result_of "passed" at_10_05_00 30))].

Definition forms : Feature := feature_of "Forms" "passed" None (Some [send]).

(** a scenario that failed before any of its steps ran *)
Definition find_item : Scenario :=
  scenario_of "Find item" (Some "failed") None [step_of "I search" None].

Definition search : Feature :=
  feature_of "Search" "failed" None (Some [find_item]).

Definition tick : Scenario :=
  scenario_of "Tick" (Some "passed") None
    [step_of "I wait" (Some (result_of "passed" "yesterday" 5))].

Definition clock : Feature := feature_of "Clock" "passed" None (Some [tick]).

(** The bodies of the run files are labels here, and this table stands
    for [json.loads] on them; any other body is malformed. *)
Definition decode (body : string) : exception + list Feature :=
  if String.eqb body "[Login, Draft]" then inr [login; draft]
  else if String.eqb body "[Logout]" then inr [logout]
  else if String.eqb body "[Checkout]" then inr [checkout]
  else if String.eqb body "[Forms]" then inr [forms]
  else if String.eqb body "[Search]" then inr [search]
  else if String.eqb body "[Clock]" then inr [clock]
  else inl (Raise ValueError "Expecting value: line 1 column 1 (char 0)").

(** [datetime.fromisoformat] on the timestamps of the examples *)
Definition isoformat (s : string) : option datetime :=
  if String.eqb s at_10_00_00 then Some 1682935200000000
  else if String.eqb s at_10_00_01 then Some 1682935201000000
  else if String.eqb s at_10_05_00 then Some 1682935500000000
  else None.

Definition externals (handlers : list ((string -> bool) * (string -> string)))
    : Externals :=
  {| json_loads := decode;
     fromisoformat := isoformat;
     parse_log_to_html := fun text => inr ("<pre>" +:+ text +:+ "</pre>");
     format_gherkin_table := fun _ _ _ => "";
     TAG_HANDLERS := handlers;
     SCENARIO_SUBHEADER_HANDLER := [];
     cucu_dir := "/cucu" |}.

(** two handlers whose patterns both match every tag *)
Definition two_handlers : list ((string -> bool) * (string -> string)) :=
  [(fun _ => true, fun tag => tag +:+ "!");
   (fun _ => true, fun tag => tag +:+ "?")].

Definition state_of (entries : list (string * node)) : state :=
  {| st_fs := list_to_map
                (entries
                 ++ [("/cucu/reporter/external", Dir);
                     ("/cucu/reporter/external/style.css", File "css");
                     ("/report", Dir)]);
     st_log := []; st_log_files := None |}.

(** two good run files and a malformed one *)
Definition results_state : state :=
  state_of
    [("/results", Dir);
     ("/results/login-run.json", File "[Login, Draft]");
     ("/results/logout-run.json", File "[Logout]");
     ("/results/bad-run.json", File "{");
     ("/results/Login", Dir);
     ("/results/Login/Valid credentials", Dir);
     ("/results/Login/Valid credentials/1 - I click _submit.png", File "png");
     ("/results/Login/Valid credentials/logs", Dir);
     ("/results/Login/Valid credentials/logs/browser.console.log", File "ready");
     ("/results/Login/Remember me", Dir);
     ("/results/Logout", Dir);
     ("/results/Logout/Leave", Dir);
     ("/results/Logout/Leave/logs", Dir)].



(** an entry of the results directory that has the name of a run file
    and cannot be opened as a file *)
Definition spool_state : state :=
  state_of
    [("/spool", Dir);
     ("/spool/old-run.json", Dir);
     ("/spool/logout-run.json", File "[Logout]");
     ("/spool/Logout", Dir);
     ("/spool/Logout/Leave", Dir);
     ("/spool/Logout/Leave/logs", Dir)].


Definition hooks_state : state :=
  state_of
    [("/hooks", Dir);
     ("/hooks/run.json", File "[Search]");
     ("/hooks/Search", Dir);
     ("/hooks/Search/Find item", Dir);
     ("/hooks/Search/Find item/logs", Dir);
     ("/hooks/Search/Find item/logs/browser.console.log", File "boot")].


Definition plain : Externals := externals [].

(** what a run returned, [d] standing for a run that raised *)
Definition outcome {A : Type} (d : A) (r : exception + (A * state))
    : A * state :=
  match r with
  | inr x => x
  | inl _ => (d, state_of [])
  end.

Definition no_report : Report :=
  {| reported_features := [];
     grand_totals :=
       {| gt_total_scenarios := 0; gt_total_scenarios_passed := 0;
          gt_total_scenarios_failed := 0; gt_total_scenarios_skipped := 0;
          gt_duration := 0 |} |}.

(** the features read from [/results], and the two reports made of them *)
Definition results_loaded : list Feature * state :=
  outcome [] (load (ext := plain) "/results" results_state).

Definition results_run : Report * state :=
  outcome no_report
    (generate (ext := plain) "/results" "/report" false results_state).

Definition failures_run : Report * state :=
  outcome no_report
    (generate (ext := plain) "/results" "/report" true results_state).




(** the [logs] key of every scenario of a report *)
Definition logs (rep : Report) : list (option (list LogFile)) :=
  f ← reported_features rep;
  sc_logs <$> default [] (f_elements f).


End Demo.

(** * The aggregation, continued *)

Section ReporterTurns.

Context {ext : Externals}.







(** the features decoded from the bodies of run files, in order; a body
    that does not decode gives none *)
Fixpoint decoded (bodies : list string) : list Feature :=
  match bodies with
  | [] => []
  | body :: bodies' =>
      match json_loads body with
      | inr loaded => (loaded ++ decoded bodies')%list
      | inl _ => decoded bodies'
      end
  end.

(** the warnings logged for the run files that do not decode, in order *)
Fixpoint warnings (files : list (string * string)) : list (level * string) :=
  match files with
  | [] => []
  | (run_json_filepath, body) :: files' =>
      match json_loads body with
      | inr _ => warnings files'
      | inl e =>
          (WARNING,
           "unable to read file " +:+ run_json_filepath
           +:+ ", got error: " +:+ exc_str e) :: warnings files'
      end
  end.



End ReporterTurns.

(** every path of [fs] is a path of [fs'] *)
Definition kept (fs fs' : gmap string node) : Prop :=
  forall p, is_Some (fs !! p) -> is_Some (fs' !! p).

(** a computation that takes no path off the file system *)
Definition grows {A : Type} (m : M A) : Prop :=
  forall st a st', m st = inr (a, st') -> kept (st_fs st) (st_fs st').

Module Reuse.

Import Demo.

(** the results of [results_state] beside a report directory that holds
    the external files of an earlier report *)
Definition reused_state : state :=
  {| st_fs := <["/report/external" := Dir]> (st_fs results_state);
     st_log := []; st_log_files := None |}.

End Reuse.

Module Cases.

Import Demo.

(** a scenario with a heading step and a result whose error message is the
    list holding [None] alone *)
Definition annotated : Scenario :=
  scenario_of "Annotated" (Some "passed") None
    [step_of "# Set up" None;
     {| s_name := "I shrug"; s_heading_level := None; s_image := None;
        s_result :=
          Some {| r_status := "passed"; r_timestamp := TimeStr at_10_00_00;
                  r_duration := 3; r_time_offset := None;
                  r_error_message := Some [None] |};
        s_text := None; s_table := None |}].

(** a scenario that starts one second after [annotated] *)
Definition later : Scenario :=
  scenario_of "Later" (Some "passed") None
    [step_of "I follow" (Some (result_of "passed" at_10_00_01 4))].

Definition notes : Feature :=
  feature_of "Notes" "passed" None (Some [remember_me; annotated; later]).

Definition parked : Feature :=
  feature_of "Parked" "skipped" None (Some [remember_me]).

Definition decode (body : string) : exception + list Feature :=
  if String.eqb body "[Notes, Parked]" then inr [notes; parked]
  else Demo.decode body.

Definition externals : Externals :=
  {| json_loads := decode;
     fromisoformat := isoformat;
     parse_log_to_html := fun text => inr ("<pre>" +:+ text +:+ "</pre>");
     format_gherkin_table := fun _ _ _ => "";
     TAG_HANDLERS := [];
     SCENARIO_SUBHEADER_HANDLER := [];
     cucu_dir := "/cucu" |}.

Definition notes_state : state :=
  state_of
    [("/notes", Dir);
     ("/notes/run.json", File "[Notes, Parked]");
     ("/notes/Notes", Dir);
     ("/notes/Notes/Annotated", Dir);
     ("/notes/Notes/Annotated/logs", Dir);
     ("/notes/Notes/Later", Dir);
     ("/notes/Notes/Later/logs", Dir);
     ("/notes/Notes/Later/logs/browser.console.log", File "late")].







Definition parked_turn : Feature * state :=
  outcome parked
    (process_feature (ext := externals) "/notes" "/report" parked notes_state).

End Cases.

(** ** The entries of the logs *)




Module Entries.

Import Demo.


End Entries.

(** ** Python text, continued *)

Module Text.

(** [s.replace(old, new)] for a one-character [old] *)
Fixpoint replace1 (old : ascii) (new : string) (s : string) : string :=
  match s with
  | EmptyString => EmptyString
  | String c s' =>
      if Ascii.eqb c old then new +:+ replace1 old new s'
      else String c (replace1 old new s')
  end.

(** the white space of [str.isspace] that is one byte long in UTF-8:
    U+0009 to U+000D, U+001C to U+001F and the space *)
Definition space1 (c : ascii) : bool :=
  let n := Ascii.N_of_ascii c in
  ((9 <=? n) && (n <=? 13) || (28 <=? n) && (n <=? 32))%N.

(** the white space that is two bytes long: U+0085 and U+00A0 *)
Definition space2 (c1 c2 : ascii) : bool :=
  let n1 := Ascii.N_of_ascii c1 in
  let n2 := Ascii.N_of_ascii c2 in
  ((n1 =? 194) && ((n2 =? 133) || (n2 =? 160)))%N.

(** the white space that is three bytes long: U+1680, U+2000 to U+200A,
    U+2028, U+2029, U+202F, U+205F and U+3000 *)
Definition space3 (c1 c2 c3 : ascii) : bool :=
  let n1 := Ascii.N_of_ascii c1 in
  let n2 := Ascii.N_of_ascii c2 in
  let n3 := Ascii.N_of_ascii c3 in
  ((n1 =? 225) && (n2 =? 154) && (n3 =? 128)
   || (n1 =? 226) && (n2 =? 128)
      && ((128 <=? n3) && (n3 <=? 138) || (n3 =? 168) || (n3 =? 169)
          || (n3 =? 175))
   || (n1 =? 226) && (n2 =? 129) && (n3 =? 159)
   || (n1 =? 227) && (n2 =? 128) && (n3 =? 128))%N.

(** the bytes left when the white space is taken off the front *)
Fixpoint lstrip_bytes (l : list ascii) : list ascii :=
  match l with
  | [] => []
  | c1 :: r1 =>
      if space1 c1 then lstrip_bytes r1
      else
        match r1 with
        | [] => l
        | c2 :: r2 =>
            if space2 c1 c2 then lstrip_bytes r2
            else
              match r2 with
              | [] => l
              | c3 :: r3 => if space3 c1 c2 c3 then lstrip_bytes r3 else l
              end
        end
  end.

(** the same on the bytes read from the end: [l] is a text reversed *)
Fixpoint rstrip_bytes (l : list ascii) : list ascii :=
  match l with
  | [] => []
  | c1 :: r1 =>
      if space1 c1 then rstrip_bytes r1
      else
        match r1 with
        | [] => l
        | c2 :: r2 =>
            if space2 c2 c1 then rstrip_bytes r2
            else
              match r2 with
              | [] => l
              | c3 :: r3 => if space3 c3 c2 c1 then rstrip_bytes r3 else l
              end
        end
  end.

(** [s.lstrip()] *)
Definition lstrip (s : string) : string :=
  String.string_of_list_ascii (lstrip_bytes (String.list_ascii_of_string s)).

(** [s.rstrip()] *)
Definition rstrip (s : string) : string :=
  String.string_of_list_ascii
    (rev (rstrip_bytes (rev (String.list_ascii_of_string s)))).

(** [s.strip()] *)
Definition strip (s : string) : string := rstrip (lstrip s).

End Text.

(** the double quote *)
Definition dquote : ascii := Ascii.ascii_of_nat 34.

(** [xml.sax.saxutils.escape(data, entities)], the keys of [entities] being
    one character long *)
Definition saxutils_escape (data : string) (entities : list (ascii * string))
    : string :=
  let data := Text.replace1 "&" "&amp;" data in
  let data := Text.replace1 ">" "&gt;" data in
  let data := Text.replace1 "<" "&lt;" data in
  fold_left (fun s '(key, value) => Text.replace1 key value s) entities data.

(** [escape(data)] *)
Definition escape (data : option string) : option string :=
  match data with
  | None => None
  | Some data =>
      Some (Text.rstrip (saxutils_escape data [(dquote, "&quot;")]))
  end.

(** [urlencode(string)], the function that [generate] hands to the
    templates *)
Definition urlencode (s : string) : string :=
  Text.replace1 "#" "%23"
    (Text.replace1 "'" "%27" (Text.replace1 dquote "%22" s)).

(** what [escape] writes for one character *)
Definition escape_char (c : ascii) : string :=
  if Ascii.eqb c "&" then "&amp;"
  else if Ascii.eqb c ">" then "&gt;"
  else if Ascii.eqb c "<" then "&lt;"
  else if Ascii.eqb c dquote then "&quot;"
  else String c "".

(** what [urlencode] writes for one character *)
Definition urlencode_char (c : ascii) : string :=
  if Ascii.eqb c dquote then "%22"
  else if Ascii.eqb c "'" then "%27"
  else if Ascii.eqb c "#" then "%23"
  else String c "".

(** the text made of what [f] writes for each character of [s] *)
Fixpoint each_char (f : ascii -> string) (s : string) : string :=
  match s with
  | EmptyString => EmptyString
  | String c s' => f c +:+ each_char f s'
  end.

(** [c in s] for a character *)
Fixpoint has_char (c : ascii) (s : string) : bool :=
  match s with
  | EmptyString => false
  | String d s' => Ascii.eqb d c || has_char c s'
  end.

(** * The language server, [cucu.language_server.core] *)

Module Split.

(** [s.split(sep)] for a one-character [sep]; [acc] is the part being read *)
Fixpoint on_char (sep : ascii) (acc : string) (s : string) : list string :=
  match s with
  | EmptyString => [acc]
  | String c s' =>
      if Ascii.eqb c sep then acc :: on_char sep "" s'
      else on_char sep (acc +:+ String c "") s'
  end.

(** [s.split(sep)] for the two-character [sep] made of [a] then [b] *)
Fixpoint on_pair (a b : ascii) (acc : string) (s : string) : list string :=
  match s with
  | EmptyString => [acc]
  | String c s' =>
      match s' with
      | EmptyString => [acc +:+ String c ""]
      | String d s'' =>
          if Ascii.eqb c a && Ascii.eqb d b then acc :: on_pair a b "" s''
          else on_pair a b (acc +:+ String c "") s'
      end
  end.

End Split.

(** the line feed *)
Definition newline : ascii := Ascii.ascii_of_nat 10.

(** the text before the first line feed *)
Fixpoint first_line (s : string) : string :=
  match s with
  | EmptyString => EmptyString
  | String c s' =>
      if Ascii.eqb c newline then EmptyString else String c (first_line s')
  end.

(** the group of a greedy any-character pattern followed by [closing],
    matched from the start of a text without line feed: the text before the
    last [closing] *)
Fixpoint greedy_before (closing : string) (s : string) : option string :=
  match s with
  | EmptyString => None
  | String c s' =>
      match greedy_before closing s' with
      | Some group => Some (String c group)
      | None => if String.prefix closing s then Some EmptyString else None
      end
  end.

(** [re.match] with the pattern of [load_cucu_steps], which reads
    [@step('], a greedy group of any characters, then [')]: the group, or
    [None] when there is no match *)
Definition match_step (line : string) : option string :=
  if String.prefix "@step('" line
  then greedy_before "')" (first_line (Str.drop 7 line))
  else None.

(** [re.match] with the pattern of [completions], which reads one of
    [Given], [When], [Then], [And], a space, then a greedy group of any
    characters: the second group, or [None] when there is no match *)
Definition match_keyword (line : string) : option string :=
  if String.prefix "Given " line then Some (first_line (Str.drop 6 line))
  else if String.prefix "When " line then Some (first_line (Str.drop 5 line))
  else if String.prefix "Then " line then Some (first_line (Str.drop 5 line))
  else if String.prefix "And " line then Some (first_line (Str.drop 4 line))
  else None.

(** [s.replace(old, "")]: the occurrences of [old] are taken out from left
    to right; [skip] counts the characters of the occurrence being left
    out *)
Fixpoint remove_from (old : string) (skip : nat) (s : string) : string :=
  match s with
  | EmptyString => EmptyString
  | String c s' =>
      match skip with
      | S skip' => remove_from old skip' s'
      | O =>
          if negb (String.eqb old "") && String.prefix old s
          then remove_from old (String.length old - 1) s'
          else String c (remove_from old O s')
      end
  end.

Definition remove_all (old s : string) : string := remove_from old O s.

(** where a step is defined *)
Record Location := { filepath : string; line : string }.

(** [steps_cache[key] = v] on a [dict] kept as the list of its items in
    insertion order: the value of a key that is there is replaced in place *)
Fixpoint dict_set {V : Type} (key : string) (v : V) (d : list (string * V))
    : list (string * V) :=
  match d with
  | [] => [(key, v)]
  | (k, w) :: d' =>
      if String.eqb k key then (k, v) :: d' else (k, w) :: dict_set key v d'
  end.

(** the unpacking of a list into three names *)
Definition unpack3 (l : list string) : exception + (string * string * string) :=
  match l with
  | [a; b; c] => inr (a, b, c)
  | _ :: _ :: _ :: _ :: _ =>
      inl (Raise ValueError "too many values to unpack (expected 3)")
  | _ =>
      inl (Raise ValueError
             ("not enough values to unpack (expected 3, got "
              +:+ Str.of_int (Z.of_nat (length l)) +:+ ")"))
  end.

(** [list.sort(key=key, reverse=True)]: a stable sort, the greater keys
    first *)
Fixpoint insert_desc {A : Type} (key : A -> Z) (x : A) (l : list A) : list A :=
  match l with
  | [] => [x]
  | y :: l' =>
      if key x <? key y then y :: insert_desc key x l' else x :: y :: l'
  end.

Definition sort_desc {A : Type} (key : A -> Z) (l : list A) : list A :=
  foldr (insert_desc key) [] l.

(** a [CompletionItem] *)
Record CompletionItem := {
  label : string;
  detail : string;
  insert_text : string;
}.

Section LanguageServer.

(** [fuzz.ratio] of fuzzywuzzy *)
Variable fuzz_ratio : string -> string -> Z.

(** [subprocess.check_output(['cucu', 'steps']).decode('utf8')], or the
    exception raised on the way *)
Variable cucu_steps_output : exception + string.

(** the loop of [load_cucu_steps] over the step definitions *)
Fixpoint for_cucu_steps (chunks : list string)
    (steps_cache : list (string * Location))
    : exception + list (string * Location) :=
  match chunks with
  | [] => inr steps_cache
  | cucu_step :: chunks' =>
      if String.eqb (Text.strip cucu_step) "" then
        for_cucu_steps chunks' steps_cache
      else
        let? (step_name, _, location) :=
          unpack3 (Split.on_char newline "" cucu_step) in
        let? step_name :=
          match match_step step_name with
          | Some group => inr group
          | None =>
              inl (Raise OtherError
                     "AttributeError: 'NoneType' object has no attribute 'groups'")
          end in
        let? (_, filepath, line_number) :=
          unpack3 (Split.on_char ":" "" location) in
        for_cucu_steps chunks'
          (dict_set step_name
             {| filepath := Text.strip filepath;
                line := Text.strip line_number |} steps_cache)
  end.

Definition load_cucu_steps : exception + list (string * Location) :=
  let? cucu_steps_output := cucu_steps_output in
  for_cucu_steps (Split.on_pair newline newline "" cucu_steps_output) [].

(** the item appended for a step: its name and [filepath:line] *)
Definition completion_of (item : string * Location) : string * string :=
  (item.1, filepath item.2 +:+ ":" +:+ line item.2).

(** [find_completions(step_fragment, steps_cache)]. The loops go through
    the keys of the [dict] and fetch the value of each, which is the value
    found beside the key. *)
Definition find_completions (step_fragment : string)
    (steps_cache : option (list (string * Location)))
    : exception + list (string * string) :=
  let? steps_cache :=
    match steps_cache with
    | None => load_cucu_steps
    | Some steps_cache => inr steps_cache
    end in
  let items :=
    map completion_of
      (filter (fun item => Str.startswith item.1 step_fragment = true)
         steps_cache) in
  if (length items =? 0)%nat then
    let items :=
      map completion_of
        (filter (fun item => 40 < fuzz_ratio step_fragment item.1)
           steps_cache) in
    inr (sort_desc (fun completion_item =>
                      fuzz_ratio completion_item.1 step_fragment) items)
  else inr items.

(** the handler [completions] of [start], on the text of the document and
    the line of the position *)
Definition completions (source : string) (position_line : nat)
    (steps_cache : list (string * Location))
    : exception + list CompletionItem :=
  let document_lines := Split.on_char newline "" source in
  let? completion_line :=
    match document_lines !! position_line with
    | Some l => inr l
    | None => inl (Raise OtherError "IndexError: list index out of range")
    end in
  let completion_line := Text.lstrip completion_line in
  let? step_line :=
    match match_keyword completion_line with
    | Some group => inr group
    | None =>
        inl (Raise OtherError
               "AttributeError: 'NoneType' object has no attribute 'groups'")
    end in
  let? step_completions :=
    find_completions completion_line (Some steps_cache) in
  inr (map (fun '(step_name, step_location) =>
              {| label := step_name;
                 detail := "defined in " +:+ step_location;
                 insert_text := remove_all step_line step_name |})
         step_completions).

End LanguageServer.

(** ** The listing that [load_cucu_steps] reads *)

(** a step as [cucu steps] lists it *)
Record Listed := {
  listed_name : string;
  listed_function : string;
  listed_filepath : string;
  listed_line : string;
}.

(** the three lines of a step, as the comment of [load_cucu_steps] shows
    them *)
Definition listed_text (s : Listed) : string :=
  ("@step('" +:+ listed_name s +:+ "')")
  +:+ String newline
        (("  Function: " +:+ listed_function s)
         +:+ String newline
               ("  Location: " +:+ listed_filepath s +:+ ":" +:+ listed_line s)).

(** the listing of the steps, a blank line between two of them *)
Definition listing (steps : list Listed) : string :=
  Str.join (String newline (String newline "")) (map listed_text steps).

(** the fields of a listed step fit their line: no field holds a line
    feed, the file path and the line number hold no colon and have no
    white space around them *)
Definition well_listed (s : Listed) : bool :=
  negb (has_char newline (listed_name s))
  && negb (has_char newline (listed_function s))
  && negb (has_char newline (listed_filepath s))
  && negb (has_char newline (listed_line s))
  && negb (has_char ":" (listed_filepath s))
  && negb (has_char ":" (listed_line s))
  && String.eqb (Text.strip (listed_filepath s)) (listed_filepath s)
  && String.eqb (Text.strip (listed_line s)) (listed_line s).

(** what [load_cucu_steps] keeps of a listed step *)
Definition entry_of (s : Listed) : string * Location :=
  (listed_name s,
   {| filepath := listed_filepath s; line := listed_line s |}).

(** no two line feeds in a row, and none at the end *)
Fixpoint single_spaced (s : string) : bool :=
  match s with
  | EmptyString => true
  | String c s' =>
      if Ascii.eqb c newline then
        match s' with
        | EmptyString => false
        | String d _ => negb (Ascii.eqb d newline) && single_spaced s'
        end
      else single_spaced s'
  end.

(** a chunk of the output that [load_cucu_steps] reads a step from: three
    lines, the first with the step pattern, the third with two colons *)
Definition step_chunk (cucu_step : string) : Prop :=
  exists first second third name head filepath line_number,
    Split.on_char newline "" cucu_step = [first; second; third] /\
    match_step first = Some name /\
    Split.on_char ":" "" third = [head; filepath; line_number].

Module Editor.

(** a ratio for the examples: twice the number of characters of [a] that
    are found in [b], in hundredths of the two lengths together *)
Fixpoint found (a b : string) : nat :=
  match a with
  | EmptyString => O
  | String x a' => ((if has_char x b then 1 else 0) + found a' b)%nat
  end.

Definition ratio (a b : string) : Z :=
  let together := Z.of_nat (String.length a + String.length b) in
  if together =? 0 then 100 else 200 * Z.of_nat (found a b) / together.

Definition wait : Listed :=
  {| listed_name := "I wait to see the button " +:+ String dquote "{name}"
                    +:+ String dquote "";
     listed_function := "inner_step()";
     listed_filepath := "src/cucu/steps/button_steps.py";
     listed_line := "64" |}.

Definition click : Listed :=
  {| listed_name := "I click the button ('{name}')";
     listed_function := "click()";
     listed_filepath := "src/cucu/steps/button_steps.py";
     listed_line := "12" |}.

Definition open_page : Listed :=
  {| listed_name := "I open the page";
     listed_function := "open_page()";
     listed_filepath := "src/cucu/steps/browser_steps.py";
     listed_line := "7" |}.

Definition listed : list Listed := [wait; click; open_page].

Definition cache : list (string * Location) := map entry_of listed.

(** a feature file being edited *)
Definition document : string :=
  "Feature: buttons" +:+ String newline
    ("  Scenario: press" +:+ String newline
       ("    Given I open the page" +:+ String newline
          "    When I click the")).

(** what the server answers on the last line of [document] *)
Definition answer : list CompletionItem :=
  match completions ratio (inr "") document 3 cache with
  | inr items => items
  | inl _ => []
  end.

End Editor.


(** * Properties *)

(** ** Running the monads *)

Lemma bind_exc_inr {A B : Type} (m : exception + A) (k : A -> exception + B) b :
  bind_exc m k = inr b -> exists a, m = inr a /\ k a = inr b.
Proof. destruct m as [e | a]; simpl; [discriminate | eauto]. Qed.

Lemma bind_inr {A B : Type} (m : M A) (k : A -> M B) st b st' :
  bind m k st = inr (b, st') ->
  exists a st1, m st = inr (a, st1) /\ k a st1 = inr (b, st').
Proof.
  unfold bind. destruct (m st) as [e | [a st1]]; [discriminate | eauto].
Qed.

Lemma bind_inl {A B : Type} (m : M A) (k : A -> M B) st e :
  m st = inl e -> bind m k st = inl e.
Proof. unfold bind. now intros ->. Qed.

Lemma lift_inr {A : Type} (r : exception + A) st a st' :
  lift r st = inr (a, st') -> r = inr a /\ st' = st.
Proof. destruct r; simpl; [discriminate | now inversion 1]. Qed.





(** ** Sums and counts *)

Lemma fold_left_add_shift (l : list Z) (a : Z) :
  fold_left Z.add l a = a + Zsum l.
Proof.
  revert a. induction l as [| x l IH]; intros a; simpl; [lia |].
  rewrite IH. lia.
Qed.

Lemma py_sum_Zsum (l : list Z) : py_sum l = Zsum l.
Proof. unfold py_sum. now rewrite fold_left_add_shift. Qed.

Lemma getitems_inr {X : Type} key (get : X -> option Z) (l : list X) vs :
  getitems key get l = inr vs -> map get l = map Some vs.
Proof.
  revert vs. induction l as [| x l IH]; intros vs H; simpl in *.
  - now inversion H.
  - destruct (get x) as [v |] eqn:E; [| discriminate].
    apply bind_exc_inr in H as (vs' & Hvs & H). inversion H; subst.
    simpl. f_equal. now apply IH.
Qed.

Lemma omap_map_Some {X : Type} (get : X -> option Z) (l : list X) vs :
  map get l = map Some vs -> omap get l = vs.
Proof.
  revert vs. induction l as [| x l IH]; intros [| v vs] H; simpl in *;
    try discriminate; [reflexivity |].
  injection H as Hx Hl. rewrite Hx. simpl. f_equal. now apply IH.
Qed.

Lemma sum_items_inr {X : Type} key (get : X -> option Z) (l : list X) v :
  sum_items key get l = inr v ->
  Forall (fun x => is_Some (get x)) l /\ v = Zsum (omap get l).
Proof.
  unfold sum_items. intros H. apply bind_exc_inr in H as (vs & Hvs & H).
  inversion H; subst. apply getitems_inr in Hvs. split.
  - clear H. revert vs Hvs. induction l as [| x l IH]; intros [| w vs] Hvs;
      simpl in *; try discriminate; constructor.
    + injection Hvs as Hx _. rewrite Hx. eauto.
    + injection Hvs as _ Hl. eauto.
  - rewrite py_sum_Zsum. f_equal. symmetry. now apply omap_map_Some.
Qed.

Section Turns.

Context {ext : Externals}.

(** ** The turn of a step *)

Lemma process_result_inr r sc l r' sc' l' :
  process_result r sc l = inr (r', sc', l') ->
  r_status r' = r_status r /\ r_duration r' = r_duration r /\
  total_steps l' = total_steps l /\ step_index l' = step_index l /\
  scenario_duration l' = scenario_duration l + r_duration r /\
  (if timed r then
     exists t, parse_timestamp (r_timestamp r) = inr t /\
       r_timestamp r' = TimeAt t /\
       scenario_started_at l' = Some (default t (scenario_started_at l)) /\
       r_time_offset r' =
         Some (time_offset_from (default t (scenario_started_at l)) t) /\
       sc' = match scenario_started_at l with
             | None => set_sc_started_at (TimeAt t) sc
             | Some _ => sc
             end
   else
     r_timestamp r' = r_timestamp r /\ r_time_offset r' = r_time_offset r /\
     scenario_started_at l' = scenario_started_at l /\ sc' = sc).
Proof.
  unfold process_result. intros H.
  destruct (timed r) eqn:Ht.
  - destruct (parse_timestamp (r_timestamp r)) as [e | t] eqn:Hp;
      simpl in H; [discriminate |].
    destruct (scenario_started_at l) as [a |] eqn:Ha; simpl in H;
      case_bool_decide; inversion H; subst; clear H; simpl;
      repeat split; eauto 10.
  - simpl in H. case_bool_decide; inversion H; subst; clear H; simpl;
      repeat split; eauto.
Qed.

Lemma process_step_inr fs p s sc l s' sc' l' :
  process_step fs p s sc l = inr (s', sc', l') ->
  s_name s' = s_name s /\
  s_image s' =
    (if os_path_exists fs (os_path_join p (image_filename_of (step_index l) (s_name s)))
     then Some (urllib_parse_quote (image_filename_of (step_index l) (s_name s)))
     else s_image s) /\
  total_steps l' = total_steps l + 1 /\ step_index l' = step_index l + 1 /\
  match s_result s with
  | None =>
      s_result s' = None /\ sc' = sc /\
      scenario_started_at l' = scenario_started_at l /\
      scenario_duration l' = scenario_duration l
  | Some r =>
      exists r', s_result s' = Some r' /\
        result_turn (scenario_started_at l) r r' /\
        scenario_duration l' = scenario_duration l + r_duration r /\
        (if timed r then
           exists t, parse_timestamp (r_timestamp r) = inr t /\
             scenario_started_at l' = Some (default t (scenario_started_at l)) /\
             sc' = match scenario_started_at l with
                   | None => set_sc_started_at (TimeAt t) sc
                   | Some _ => sc
                   end
         else scenario_started_at l' = scenario_started_at l /\ sc' = sc)
  end.
Proof.
  unfold process_step. intros H.
  set (s1 := if Str.startswith (s_name s) "#" then set_s_heading_level "h4" s else s) in H.
  assert (Hs1 : s_name s1 = s_name s /\ s_image s1 = s_image s /\ s_result s1 = s_result s).
  { subst s1. destruct (Str.startswith _ _); simpl; auto. }
  destruct Hs1 as (Hn1 & Hi1 & Hr1).
  simpl in H.
  set (ex := os_path_exists fs _) in *.
  set (s2 := if ex then _ else s1) in H.
  assert (Hs2 : s_name s2 = s_name s /\ s_result s2 = s_result s /\
                s_image s2 = if ex then Some (urllib_parse_quote (image_filename_of (step_index l) (s_name s))) else s_image s).
  { subst s2. destruct ex; simpl; auto. }
  destruct Hs2 as (Hn2 & Hr2 & Hi2). clearbody s2 s1.
  apply bind_exc_inr in H as ([[s3 sc3] l3] & H3 & H).
  assert (Hs3 : s_name s3 = s_name s /\ s_image s3 = s_image s2).
  { destruct (s_result s2); [| inversion H3; subst; auto].
    apply bind_exc_inr in H3 as ([[r4 sc4] l4] & _ & H3). inversion H3; subst. simpl. auto. }
  destruct Hs3 as (Hn3 & Hi3).
  set (s4 := match s_text s3 with Some (TextStr _) => _ | _ => s3 end) in H.
  assert (Hs4 : s_name s4 = s_name s3 /\ s_image s4 = s_image s3 /\ s_result s4 = s_result s3 /\ s_table s4 = s_table s3).
  { subst s4. destruct (s_text s3) as [[?|?]|]; simpl; auto. }
  destruct Hs4 as (Hn4 & Hi4 & Hr4 & Ht4).
  set (s5 := match s_text s4 with Some (TextLines _) => _ | _ => s4 end) in H.
  assert (Hs5 : s_name s5 = s_name s4 /\ s_image s5 = s_image s4 /\ s_result s5 = s_result s4 /\ s_table s5 = s_table s4).
  { subst s5. destruct (s_text s4) as [[?|?]|]; simpl; auto. }
  destruct Hs5 as (Hn5 & Hi5 & Hr5 & Ht5). clearbody s5 s4.
  apply bind_exc_inr in H as (s6 & H6 & H). inversion H; subst s' sc' l'; clear H. simpl.
  assert (Hs6 : s_name s6 = s_name s5 /\ s_image s6 = s_image s5 /\ s_result s6 = s_result s5).
  { destruct (s_table s5) as [[?|?]|]; inversion H6; subst; simpl; auto. }
  destruct Hs6 as (Hn6 & Hi6 & Hr6).
  split; [congruence |]. split; [congruence |].
  rewrite Hr6, Hr5, Hr4.
  rewrite Hr2 in H3. destruct (s_result s) as [r |].
  - apply bind_exc_inr in H3 as ([[r4 sc4] l4] & Hpr & H3). inversion H3; subst; clear H3.
    apply process_result_inr in Hpr. simpl in Hpr.
    destruct Hpr as (Hst & Hd & Hts & Hsi & Hdur & Htimed).
    split; [lia |]. split; [lia |].
    exists r4. split; [reflexivity |]. split.
    + unfold result_turn. repeat split; auto.
      destruct (timed r).
      * destruct Htimed as (t & ? & ? & ? & ? & ?). eauto.
      * tauto.
    + split; [exact Hdur |]. destruct (timed r).
      * destruct Htimed as (t & ? & ? & ? & ? & ?). eauto.
      * tauto.
  - inversion H3; subst; clear H3. simpl. repeat split; simpl; try lia; auto.
Qed.



Lemma for_steps_timing fs p steps : forall sc l steps' sc' l',
  for_steps fs p steps sc l = inr (steps', sc', l') ->
  scenario_started_at l' = final_anchor (scenario_started_at l) steps /\
  sc' = match scenario_started_at l, anchor_of steps with
        | None, Some t => set_sc_started_at (TimeAt t) sc
        | _, _ => sc
        end /\
  Forall2 (step_timing (final_anchor (scenario_started_at l) steps)) steps steps'.
Proof.
  induction steps as [| s steps IH]; intros sc l steps' sc' l' H; simpl in H.
  - inversion H; subst. unfold final_anchor. simpl.
    destruct (scenario_started_at l'); auto.
  - apply bind_exc_inr in H as ([[s1 sc1] l1] & Hs & H).
    apply bind_exc_inr in H as ([[r2 sc2] l2] & Hr & H).
    inversion H; subst; clear H.
    apply IH in Hr as (Hst & Hsc & Hall).
    apply process_step_inr in Hs as (_ & _ & _ & _ & Hres).
    unfold final_anchor in *. simpl anchor_of. unfold timed_step, timestamp_of.
    destruct (s_result s) as [r |] eqn:Hsr.
    + destruct Hres as (r' & Hr' & (Hrs & Hrd & Hturn) & _ & Htimed).
      destruct (timed r) eqn:Ht.
      * destruct Htimed as (t & Hp & Hst1 & Hsc1). rewrite Hp.
        destruct Hturn as (t' & Hp' & Hts & Hoff).
        assert (t' = t) by congruence. subst t'.
        rewrite Hst1 in *.
        split; [rewrite Hst; destruct (scenario_started_at l); reflexivity |].
        split; [rewrite Hsc, Hsc1; destruct (scenario_started_at l), (anchor_of steps); reflexivity |].
        constructor.
        -- unfold step_timing. rewrite Hsr. exists r'. repeat split; auto.
           rewrite Ht. destruct (scenario_started_at l) as [a |]; simpl in *.
           ++ exists a. split; [reflexivity |]. exists t. auto.
           ++ exists t. split; [reflexivity |]. exists t. auto.
        -- destruct (scenario_started_at l); exact Hall.
      * destruct Htimed as (Hst1 & Hsc1). rewrite Hst1 in *. subst sc1.
        split; [exact Hst |]. split; [exact Hsc |].
        constructor; [| exact Hall].
        unfold step_timing. rewrite Hsr. exists r'. repeat split; auto.
        rewrite Ht. exact Hturn.
    + destruct Hres as (Hr' & Hsc1 & Hst1 & _). rewrite Hst1 in *. subst sc1.
      split; [exact Hst |]. split; [exact Hsc |].
      constructor; [| exact Hall].
      unfold step_timing. now rewrite Hsr.
Qed.

Lemma process_tags_cases {E : Type} `{Element E} (element : E) :
  process_tags element = element \/
  exists v, process_tags element = set_tags v element.
Proof. unfold process_tags. destruct (get_tags element); eauto. Qed.

Lemma count_scenario_ext a b l :
  sc_status a = sc_status b -> count_scenario a l = count_scenario b l.
Proof. unfold count_scenario. now intros ->. Qed.

Lemma count_scenario_keeps sc l :
  feature_duration (count_scenario sc l) = feature_duration l /\
  feature_started_at (count_scenario sc l) = feature_started_at l.
Proof.
  unfold count_scenario. destruct (sc_status sc); repeat case_bool_decide; auto.
Qed.

Lemma process_scenario_inr basepath sin f l st sout f' l' st' :
  process_scenario basepath sin f l st = inr (sout, f', l', st') ->
  exists pre steps' mid sl,
    same_input pre sin /\
    for_steps (st_fs st) (os_path_join3 basepath (f_name f) (sc_name sin))
      (sc_steps sin) pre step_locals_init = inr (steps', mid, sl) /\
    sc_steps sout = steps' /\ sc_name sout = sc_name sin /\
    sc_status sout = sc_status sin /\
    sc_total_steps sout = Some (total_steps sl) /\
    sc_duration sout = Some (scenario_duration sl) /\
    f_name f' = f_name f /\ f_status f' = f_status f /\
    f_elements f' = f_elements f /\ f_tags f' = f_tags f /\
    total_scenarios l' = total_scenarios (count_scenario sin l) /\
    total_scenarios_passed l' = total_scenarios_passed (count_scenario sin l) /\
    total_scenarios_failed l' = total_scenarios_failed (count_scenario sin l) /\
    total_scenarios_skipped l' = total_scenarios_skipped (count_scenario sin l) /\
    feature_duration l' = feature_duration l + scenario_duration sl /\
    match scenario_started_at sl with
    | None =>
        sc_started_at sout = Some (TimeStr "") /\
        sc_time_offset sout = sc_time_offset sin /\
        f' = f /\ feature_started_at l' = feature_started_at l /\
        st_fs st' = st_fs st
    | Some t =>
        sc_started_at sout = Some (TimeAt t) /\
        sc_time_offset sout =
          Some (time_offset_from (default t (feature_started_at l)) t) /\
        feature_started_at l' = Some (default t (feature_started_at l)) /\
        f' = match feature_started_at l with
             | None => set_f_started_at (TimeAt t) f
             | Some _ => f
             end
    end.
Proof.
  unfold process_scenario. intros H.
  set (pre := set_sc_sub_headers _ (process_tags sin)) in H.
  assert (Hpre : same_input pre sin).
  { subst pre. unfold same_input.
    destruct (process_tags_cases sin) as [-> | [v ->]]; simpl; tauto. }
  clearbody pre.
  destruct Hpre as (Hn & Hs & Hst & Hsa & Hto & Hlg).
  rewrite (count_scenario_ext pre sin l Hs) in H.
  rewrite Hn, Hst in H.
  set (p := os_path_join3 basepath (f_name f) (sc_name sin)) in *.
  fold step_locals_init in H.
  apply bind_inr in H as (fs & st1 & Hfs & H).
  unfold get_fs in Hfs. inversion Hfs; subst fs st1; clear Hfs.
  apply bind_inr in H as ([[steps' mid] sl] & st1 & Hsteps & H).
  apply lift_inr in Hsteps as [Hsteps ->].
  exists pre, steps', mid, sl.
  split; [unfold same_input; tauto |]. split; [exact Hsteps |].
  pose proof (for_steps_timing _ _ _ _ _ _ _ _ Hsteps) as (Hanchor & Hmid & _).
  simpl in Hanchor, Hmid.
  assert (Hmid' : sc_name mid = sc_name sin /\ sc_status mid = sc_status sin /\
                  sc_time_offset mid = sc_time_offset sin /\
                  (forall t, scenario_started_at sl = Some t -> sc_started_at mid = Some (TimeAt t))).
  { rewrite Hanchor, Hmid. destruct (anchor_of (sc_steps sin)); simpl;
      repeat split; try congruence. }
  destruct Hmid' as (Hmn & Hms & Hmto & Hmsa).
  clear Hmid Hanchor.
  apply bind_inr in H as (a & st1 & Hlogs & H).
  assert (Ha : sc_name a = sc_name sin /\ sc_status a = sc_status sin /\
               sc_time_offset a = sc_time_offset sin /\ sc_steps a = steps' /\
               sc_started_at a = sc_started_at mid /\ st_fs st1 = st_fs st).
  { destruct (os_path_exists (st_fs st) (os_path_join p "logs")).
    - apply bind_inr in Hlogs as ([] & st2 & Has & Hlogs).
      unfold assign_log_files in Has. inversion Has; subst st2; clear Has.
      unfold ret in Hlogs. inversion Hlogs; subst; simpl. tauto.
    - unfold ret in Hlogs. inversion Hlogs; subst; simpl. tauto. }
  destruct Ha as (Han & Has & Hato & Hasteps & Hasa & Hfs1). clear Hlogs.
  apply bind_inr in H as ([[s2 f2] started] & st2 & Hbranch & H).
  unfold ret in H. inversion H; subst sout f' l' st'; clear H. simpl.
  destruct (scenario_started_at sl) as [t |] eqn:Hsl.
  - destruct (feature_started_at (count_scenario sin l)) as [t0 |] eqn:Hf0.
    all: destruct (count_scenario_keeps sin l) as (Hfd & Hf0'); rewrite Hfd.
    all: rewrite <- Hf0', Hf0.
    all: apply bind_inr in Hbranch as (lf & st3 & _ & Hbranch).
    all: apply bind_inr in Hbranch as ([] & st4 & _ & Hbranch).
    all: unfold ret in Hbranch; inversion Hbranch; subst; clear Hbranch; simpl.
    all: rewrite (Hmsa t eq_refl) in Hasa.
    all: repeat split; auto.
  - unfold ret in Hbranch. inversion Hbranch; subst; clear Hbranch. simpl.
    destruct (count_scenario_keeps sin l) as (Hfd & Hf0'). rewrite Hfd.
    repeat split; auto.
Qed.

Lemma count_cons {X : Type} (P : X -> bool) x l :
  count P (x :: l) = bit (P x) + count P l.
Proof.
  unfold count, bit. rewrite filter_cons.
  destruct (decide (P x = true)) as [-> | Hn].
  - simpl length. lia.
  - destruct (P x); [congruence | lia].
Qed.

Lemma count_scenario_counters sc l :
  total_scenarios (count_scenario sc l) = total_scenarios l + 1 /\
  total_scenarios_passed (count_scenario sc l)
    = total_scenarios_passed l + bit (is_passed sc) /\
  total_scenarios_failed (count_scenario sc l)
    = total_scenarios_failed l + bit (is_failed sc) /\
  total_scenarios_skipped (count_scenario sc l)
    = total_scenarios_skipped l + bit (is_skipped sc).
Proof.
  unfold count_scenario, is_passed, is_failed, is_skipped, bit.
  destruct (sc_status sc) as [status |]; simpl.
  - repeat case_bool_decide; simpl; subst;
      repeat match goal with
        | H : _ \/ _ |- _ => destruct H
        | H : Some _ = Some _ |- _ => injection H as H
        | H : ~ (_ \/ _) |- _ => apply Decidable.not_or in H; destruct H
        end;
      try discriminate; try congruence; repeat split; lia.
  - repeat case_bool_decide; simpl;
      try discriminate; try tauto; repeat split; lia.
Qed.

Lemma anchor_of_untimed steps :
  Forall (fun step => timed_step step = false) steps -> anchor_of steps = None.
Proof. induction 1 as [| s steps Hs _ IH]; simpl; [| rewrite Hs]; auto. Qed.

Lemma for_scenarios_inr basepath scs : forall f l st scs' f' l' st',
  for_scenarios basepath scs f l st = inr (scs', f', l', st') ->
  Forall2 (scenario_turn basepath (f_name f)) scs scs' /\
  f_name f' = f_name f /\ f_status f' = f_status f /\
  f_elements f' = f_elements f /\ f_tags f' = f_tags f /\
  total_scenarios l' = total_scenarios l + Z.of_nat (length scs) /\
  total_scenarios_passed l' = total_scenarios_passed l + count is_passed scs /\
  total_scenarios_failed l' = total_scenarios_failed l + count is_failed scs /\
  total_scenarios_skipped l' = total_scenarios_skipped l + count is_skipped scs /\
  (Forall untimed scs ->
   feature_started_at l' = feature_started_at l /\ f' = f /\ st_fs st' = st_fs st).
Proof.
  induction scs as [| sc scs IH]; intros f l st scs' f' l' st' H; simpl in H.
  - unfold ret in H. inversion H; subst. unfold count. simpl.
    repeat split; auto; lia.
  - apply bind_inr in H as ([[sc1 f1] l1] & st1 & Hsc & H).
    apply bind_inr in H as ([[scs2 f2] l2] & st2 & Hrest & H).
    unfold ret in H. inversion H; subst; clear H.
    apply IH in Hrest as (Hall & Hn & Hs & He & Htg & Ht & Hp & Hf & Hk & Hu).
    pose proof Hsc as Hturn.
    apply process_scenario_inr in Hsc
      as (pre & steps' & mid & sl & _ & Hsteps & _ & _ & _ & _ & _ & Hn1 & Hs1
          & He1 & Htg1 & Ht1 & Hp1 & Hf1 & Hk1 & _ & Hbranch).
    destruct (count_scenario_counters sc l) as (Ct & Cp & Cf & Ck).
    rewrite !count_cons. simpl length.
    split.
    { constructor; [| now rewrite <- Hn1].
      exists f, l, st, f1, l1, st1. auto. }
    do 8 (split; [congruence || lia |]).
    intros Hun. inversion Hun as [| ? ? Hsc0 Hscs]; subst.
    apply Hu in Hscs as (Hfa & Hff & Hfs).
    apply for_steps_timing in Hsteps as (Hanchor & _ & _).
    simpl in Hanchor. rewrite (anchor_of_untimed _ Hsc0) in Hanchor.
    rewrite Hanchor in Hbranch.
    destruct Hbranch as (_ & _ & Hf' & Hl' & Hfs').
    repeat split; congruence.
Qed.

Lemma process_feature_inr results basepath fin st fout st' :
  process_feature results basepath fin st = inr (fout, st') ->
  exists scs',
    Forall2 (scenario_turn basepath (f_name fin)) (scenarios_of fin) scs' /\
    f_name fout = f_name fin /\ f_status fout = f_status fin /\
    f_elements fout = (if has_scenarios fin then Some scs' else f_elements fin) /\
    Forall (fun x => is_Some (sc_total_steps x)) scs' /\
    f_total_steps fout = Some (Zsum (omap sc_total_steps scs')) /\
    Forall (fun x => is_Some (sc_duration x)) scs' /\
    f_duration fout = Some (Zsum (omap sc_duration scs')) /\
    f_total_scenarios fout = Some (Z.of_nat (length (scenarios_of fin))) /\
    f_total_scenarios_passed fout = Some (count is_passed (scenarios_of fin)) /\
    f_total_scenarios_failed fout = Some (count is_failed (scenarios_of fin)) /\
    f_total_scenarios_skipped fout = Some (count is_skipped (scenarios_of fin)) /\
    (Forall untimed (scenarios_of fin) -> f_started_at fout = Some (TimeStr "")).
Proof.
  unfold process_feature. intros H.
  set (pre := process_tags fin) in H.
  assert (Hpre : f_name pre = f_name fin /\ f_status pre = f_status fin /\
                 f_elements pre = f_elements fin).
  { subst pre. destruct (process_tags_cases fin) as [-> | [v ->]]; simpl; tauto. }
  clearbody pre. destruct Hpre as (Hn & Hs & He).
  apply bind_inr in H as ([] & st1 & _ & H).
  apply bind_inr in H as ([[scs' f1] l1] & st2 & Hscs & H).
  apply bind_inr in H as (steps & st3 & Hsteps & H).
  apply lift_inr in Hsteps as [Hsteps ->].
  apply bind_inr in H as (duration & st3 & Hdur & H).
  apply lift_inr in Hdur as [Hdur ->].
  unfold ret in H. inversion H; subst fout st'; clear H.
  apply for_scenarios_inr in Hscs
    as (Hall & Hn1 & Hs1 & He1 & _ & Ht & Hp & Hf & Hk & Hu).
  apply sum_items_inr in Hsteps as [Hsteps_some ->].
  apply sum_items_inr in Hdur as [Hdur_some ->].
  exists scs'. simpl in *.
  split; [now rewrite <- Hn |].
  assert (Hmid : forall x : Feature,
             f_name x = f_name f1 -> f_status x = f_status f1 ->
             f_name x = f_name fin /\ f_status x = f_status fin)
    by (intros; split; congruence).
  split.
  { destruct (has_scenarios fin), (feature_started_at l1); simpl; congruence. }
  split.
  { destruct (has_scenarios fin), (feature_started_at l1); simpl; congruence. }
  split.
  { destruct (has_scenarios fin), (feature_started_at l1); simpl; congruence. }
  do 4 (split; [assumption || reflexivity |]).
  do 4 (split; [f_equal; lia |]).
  intros Hun. apply Hu in Hun as (Hfa & _ & _). rewrite Hfa.
  destruct (has_scenarios fin); reflexivity.
Qed.

Lemma for_features_inr results basepath only_failures features :
  forall reported st out st',
    for_features results basepath only_failures features reported st
      = inr (out, st') ->
    exists added,
      out = (reported ++ added)%list /\
      Forall2 (feature_turn results basepath)
        (filter (fun f => dropped only_failures f = false) features) added.
Proof.
  induction features as [| f features IH]; intros reported st out st' H;
    simpl in H.
  - unfold ret in H. inversion H; subst. exists []. rewrite app_nil_r.
    split; [reflexivity | constructor].
  - rewrite filter_cons. destruct (dropped only_failures f) eqn:Hd.
    + destruct (decide (true = false)); [discriminate |]. eauto.
    + destruct (decide (false = false)); [| congruence].
      apply bind_inr in H as (f' & st1 & Hf & H).
      apply IH in H as (added & -> & Hall).
      exists (f' :: added). rewrite <- app_assoc. split; [reflexivity |].
      constructor; [| exact Hall]. now exists st, st1.
Qed.

Lemma grand_totals_of_inr reported totals :
  grand_totals_of reported = inr totals ->
  gt_total_scenarios totals = Zsum (omap f_total_scenarios reported) /\
  gt_total_scenarios_passed totals
    = Zsum (omap f_total_scenarios_passed reported) /\
  gt_total_scenarios_failed totals
    = Zsum (omap f_total_scenarios_failed reported) /\
  gt_total_scenarios_skipped totals
    = Zsum (omap f_total_scenarios_skipped reported) /\
  gt_duration totals = Zsum (omap f_duration reported).
Proof.
  unfold grand_totals_of. intros H.
  apply bind_exc_inr in H as (t & Ht & H).
  apply bind_exc_inr in H as (p & Hp & H).
  apply bind_exc_inr in H as (f & Hf & H).
  apply bind_exc_inr in H as (k & Hk & H).
  apply bind_exc_inr in H as (d & Hd & H).
  inversion H; subst; clear H. simpl.
  apply sum_items_inr in Ht as [_ ->]. apply sum_items_inr in Hp as [_ ->].
  apply sum_items_inr in Hf as [_ ->]. apply sum_items_inr in Hk as [_ ->].
  apply sum_items_inr in Hd as [_ ->]. auto.
Qed.

Lemma generate_inr results basepath only_failures st0 rep st' :
  generate results basepath only_failures st0 = inr (rep, st') ->
  exists features st1,
    load results st0 = inr (features, st1) /\
    Forall2 (feature_turn results basepath)
      (retained only_failures features) (reported_features rep) /\
    grand_totals_of (reported_features rep) = inr (grand_totals rep).
Proof.
  unfold generate. intros H.
  apply bind_inr in H as (features & st1 & Hload & H).
  apply bind_inr in H as ([] & st2 & _ & H).
  apply bind_inr in H as (reported & st3 & Hfor & H).
  apply bind_inr in H as (totals & st4 & Htot & H).
  apply lift_inr in Htot as [Htot ->].
  unfold ret in H. inversion H; subst; clear H. simpl.
  apply for_features_inr in Hfor as (added & -> & Hall).
  exists features, st1. auto.
Qed.


(** ** What every scenario and feature of a report went through *)









(** ** When a timestamp does not parse *)







(** ** More on the turns *)

Lemma retained_false features : retained false features = features.
Proof.
  unfold retained. induction features as [| f features IH]; [reflexivity |].
  rewrite filter_cons.
  destruct (decide (dropped false f = false)) as [_ | Hn];
    [now rewrite IH | now destruct Hn].
Qed.




(** ** The loops of [process_tags] *)

Lemma for_tag_handlers_fold handlers tag :
  for_tag_handlers handlers tag = fold_left rewrite_tag handlers tag.
Proof.
  revert tag. induction handlers as [| [regex_match handler] handlers IH];
    intros tag; simpl; [reflexivity |].
  now rewrite IH.
Qed.

Lemma for_tags_map tags prepared_tags :
  for_tags tags prepared_tags = (prepared_tags ++ map display_tag tags)%list.
Proof.
  revert prepared_tags. induction tags as [| tag tags IH]; intros prepared_tags;
    simpl.
  - now rewrite app_nil_r.
  - rewrite IH, <- app_assoc. unfold display_tag.
    now rewrite for_tag_handlers_fold.
Qed.

(** ** What a report is made of *)

Lemma generate_features results basepath only_failures st0 features st1
    rep st' :
  load results st0 = inr (features, st1) ->
  generate results basepath only_failures st0 = inr (rep, st') ->
  Forall2 (feature_turn results basepath)
    (retained only_failures features) (reported_features rep) /\
  sums_over (reported_features rep) (grand_totals rep).
Proof.
  intros Hload Hgen.
  apply generate_inr in Hgen as (features' & st1' & Hload' & Hall & Htot).
  rewrite Hload in Hload'. inversion Hload'; subst features' st1'.
  split; [exact Hall | now apply grand_totals_of_inr].
Qed.

End Turns.

(** ** Rollup counters and grand totals *)

Section Rollup.

Context {ext : Externals}.


End Rollup.



(** ** Features without scenarios to go through *)

Section Untested.

Context {ext : Externals}.

(** C10. Without [only_failures], every feature read is in the report, in
    the same order and under its name; when its status is untested or it
    has no [elements], its duration, [total_steps] and four scenario
    counters are zero, whatever scenarios the record holds (they are left
    as they were read), and each grand total is the sum of that key over
    all the features of the report, these zeros included. *)
Theorem untested_feature_rolls_up_to_zero results basepath st0 features st1
    rep st' :
  load results st0 = inr (features, st1) ->
  generate results basepath false st0 = inr (rep, st') ->
  Forall2
    (fun fin fout =>
       f_name fout = f_name fin /\
       (f_status fin = "untested" \/ f_elements fin = None ->
        f_duration fout = Some 0 /\ f_total_steps fout = Some 0 /\
        f_total_scenarios fout = Some 0 /\
        f_total_scenarios_passed fout = Some 0 /\
        f_total_scenarios_failed fout = Some 0 /\
        f_total_scenarios_skipped fout = Some 0 /\
        f_elements fout = f_elements fin))
    features (reported_features rep) /\
  sums_over (reported_features rep) (grand_totals rep).
Proof.
  intros Hload Hgen.
  destruct (generate_features _ _ _ _ _ _ _ _ Hload Hgen) as [Hall Hsums].
  rewrite retained_false in Hall. split; [| exact Hsums].
  eapply Forall2_impl; [exact Hall |].
  intros fin fout (st & st2 & H).
  apply process_feature_inr in H
    as (scs' & Hscs & Hn & _ & He & _ & Hsteps & _ & Hd & Ht & Hp & Hf & Hk & _).
  split; [exact Hn |]. intros Hcase.
  assert (Hno : has_scenarios fin = false).
  { unfold has_scenarios. destruct Hcase as [Hu | Hu]; rewrite Hu.
    - apply andb_false_intro1. now apply bool_decide_eq_false_2; intros [].
    - apply andb_false_intro2. apply bool_decide_eq_false_2.
      intros [x Hx]. discriminate. }
  unfold scenarios_of in *. rewrite Hno in *.
  inversion Hscs; subst scs'. simpl in *. tauto.
Qed.

End Untested.

Lemma untested_feature_rolls_up_to_zero_witness :
  let rep := Demo.results_run.1 in
  Forall2
    (fun fin fout =>
       f_name fout = f_name fin /\
       (f_status fin = "untested" \/ f_elements fin = None ->
        f_duration fout = Some 0 /\ f_total_steps fout = Some 0 /\
        f_total_scenarios fout = Some 0 /\
        f_total_scenarios_passed fout = Some 0 /\
        f_total_scenarios_failed fout = Some 0 /\
        f_total_scenarios_skipped fout = Some 0 /\
        f_elements fout = f_elements fin))
    Demo.results_loaded.1 (reported_features rep) /\
  sums_over (reported_features rep) (grand_totals rep).
Proof.
  apply (untested_feature_rolls_up_to_zero (ext := Demo.plain) "/results"
           "/report" Demo.results_state Demo.results_loaded.1
           Demo.results_loaded.2 Demo.results_run.1 Demo.results_run.2);
    vm_compute; reflexivity.
Defined.

(** ** Durations *)

Section Durations.

Context {ext : Externals}.


End Durations.


(** ** Scenarios and features without a timed step *)

Section Untimed.

Context {ext : Externals}.


End Untimed.



(** ** Scenarios with a timed step *)

Section Timed.

Context {ext : Externals}.


End Timed.


(** ** Screenshots *)

Section Screenshots.

Context {ext : Externals}.


End Screenshots.



(** ** Tags *)

Section Tags.

Context {ext : Externals}.

(** C6, as amended. On an element that has a list of tags, each tag is
    prefixed with [@], then goes through the handlers in order: every
    handler whose pattern matches the text as it then stands is applied to
    it, a later handler seeing what the earlier ones made; the texts are
    joined with one space and stored as [tags]. An element without [tags]
    is returned as it is. *)
Theorem process_tags_display {E : Type} `{Element E} (element : E) :
  (forall tags, get_tags element = Some (TagList tags) ->
     process_tags element
     = set_tags (TagText (Str.join " " (map display_tag tags))) element) /\
  (get_tags element = None -> process_tags element = element).
Proof.
  unfold process_tags. split.
  - intros tags ->. simpl. now rewrite for_tags_map.
  - now intros ->.
Qed.

(** a tag that no pattern matches is displayed with the marker alone *)
Lemma display_tag_no_rule tag :
  Forall (fun rule => rule.1 ("@" +:+ tag) = false) TAG_HANDLERS ->
  display_tag tag = "@" +:+ tag.
Proof.
  unfold display_tag. generalize ("@" +:+ tag) as text.
  induction TAG_HANDLERS as [| rule rules IH]; intros text Hall; simpl;
    [reflexivity |].
  inversion Hall as [| ? ? Hrule Hrules]; subst.
  unfold rewrite_tag at 2. rewrite Hrule. now apply IH.
Qed.

End Tags.

Lemma process_tags_display_witness :
  process_tags (ext := Demo.externals Demo.two_handlers) Demo.login
  = set_tags (TagText "@smoke!? @ui!?") Demo.login /\
  process_tags (ext := Demo.externals Demo.two_handlers) Demo.leave
  = Demo.leave.
Proof.
  split.
  - exact (proj1 (process_tags_display
                    (ext := Demo.externals Demo.two_handlers) Demo.login)
             ["smoke"; "ui"] eq_refl).
  - exact (proj2 (process_tags_display
                    (ext := Demo.externals Demo.two_handlers) Demo.leave)
             eq_refl).
Defined.

(** C6, as stated, fails with two handlers whose patterns both match: the
    tag [smoke] is displayed as [@smoke!?], both handlers applied, where
    the first matching rule alone gives [@smoke!]. *)
Lemma first_match_counterexample :
  f_tags (process_tags (ext := Demo.externals Demo.two_handlers)
            (Demo.feature_of "Login" "passed" (Some ["smoke"]) None))
    = Some (TagText "@smoke!?") /\
  display_tag_first_match (ext := Demo.externals Demo.two_handlers) "smoke"
    = "@smoke!".
Proof. split; reflexivity. Qed.

(** ** Timestamps that do not parse *)

Section Timestamps.

Context {ext : Externals}.


End Timestamps.


(** ** Run files that cannot be read *)

Section RunFiles.

Context {ext : Externals}.

(** a run file that opens and whose body does not decode is left out with
    a warning, and the loop goes on *)
Lemma malformed_run_file_is_skipped run_json_filepath rest features st body e :
  read_file (st_fs st) run_json_filepath = inr body ->
  json_loads body = inl e ->
  for_run_json_filepaths (run_json_filepath :: rest) features st
  = for_run_json_filepaths rest features
      {| st_fs := st_fs st;
         st_log := st_log st
                   ++ [(WARNING,
                        "unable to read file " +:+ run_json_filepath
                        +:+ ", got error: " +:+ exc_str e)];
         st_log_files := st_log_files st |}.
Proof.
  intros Hread Hjson. simpl. unfold open_rb, bind, get_fs, lift at 1.
  rewrite Hread, Hjson. reflexivity.
Qed.

(** a run file that does not open makes the loop raise *)
Lemma unopenable_run_file_raises run_json_filepath rest features st e :
  read_file (st_fs st) run_json_filepath = inl e ->
  for_run_json_filepaths (run_json_filepath :: rest) features st = inl e.
Proof.
  intros Hread. simpl. unfold open_rb, bind, get_fs, lift.
  now rewrite Hread.
Qed.

End RunFiles.

(** C7, on a results directory that holds, beside a good run file, an
    entry named as a run file that cannot be opened (here a directory):
    the error of [open] is not caught and the run as a whole fails. *)
Theorem unopenable_run_file_aborts :
  glob_iglob (st_fs Demo.spool_state) (os_path_join "/spool" "*run.json")
    = ["/spool/old-run.json"; "/spool/logout-run.json"] /\
  generate (ext := Demo.plain) "/spool" "/report" false Demo.spool_state
    = inl (Raise IsADirectoryError "/spool/old-run.json").
Proof. split; vm_compute; reflexivity. Qed.

(** ** Console logs *)

(** in a scenario with a timed step the console log is rendered: the
    sibling file holds the markup made of the text of the log *)
Lemma timed_console_log_rendered :
  exists rep st',
    generate (ext := Demo.plain) "/results" "/report" false Demo.results_state
      = inr (rep, st') /\
    st_fs st' !! "/report/Login/Valid credentials/logs/browser.console.log.html"
      = Some (File "<pre>ready</pre>").
Proof. eexists _, _. split; vm_compute; reflexivity. Qed.

(** C8, on a scenario that has a console log and no timed step: the entry
    of the log file points at the rendered sibling, and the run ends with
    the log copied into the report and no rendered file written, there or
    anywhere else. *)
Theorem untimed_console_log_not_rendered :
  untimed Demo.find_item /\
  exists rep st',
    generate (ext := Demo.plain) "/hooks" "/report" false Demo.hooks_state
      = inr (rep, st') /\
    Demo.logs rep
      = [Some [{| lf_filepath := "logs/browser.console.log.html";
                  lf_name := "browser.console.log" |}]] /\
    st_fs st' !! "/report/Search/Find item/logs/browser.console.log"
      = Some (File "boot") /\
    st_fs st' !! "/report/Search/Find item/logs/browser.console.log.html"
      = None /\
    filter (fun p => Str.contains ".html" p = true) (map_to_list (st_fs st')).*1
      = [].
Proof.
  split; [repeat constructor |].
  eexists _, _. repeat split; vm_compute; reflexivity.
Qed.

(** * Further properties of the aggregation *)

Section StepDecor.
Context {ext : Externals}.





End StepDecor.

Section MoreTurns.
Context {ext : Externals}.





End MoreTurns.

Section MoreTurns2.
Context {ext : Externals}.

Lemma retained_true features :
  retained true features
  = filter (fun f => f_status f = "failed") features.
Proof.
  unfold retained. induction features as [| f features IH]; [reflexivity |].
  rewrite !filter_cons, IH. unfold dropped. simpl.
  destruct (decide (f_status f = "failed")) as [Hf | Hf].
  - rewrite bool_decide_eq_false_2 by (intros Hn; now apply Hn).
    destruct (decide (false = false)); [reflexivity | congruence].
  - rewrite bool_decide_eq_true_2 by exact Hf.
    destruct (decide (true = false)); [discriminate | reflexivity].
Qed.

Lemma for_run_json_filepaths_readable paths : forall bodies features st,
  Forall2 (fun p body => read_file (st_fs st) p = inr body) paths bodies ->
  for_run_json_filepaths paths features st
  = inr ((features ++ decoded bodies)%list,
         {| st_fs := st_fs st;
            st_log := (st_log st ++ warnings (zip paths bodies))%list;
            st_log_files := st_log_files st |}).
Proof.
  induction paths as [| p paths IH]; intros bodies features st Hall;
    inversion Hall as [| ? body ? bodies' Hp Hrest]; subst; simpl.
  - unfold ret. rewrite !app_nil_r. now destruct st.
  - unfold open_rb, bind at 1, bind at 1, get_fs, lift. rewrite Hp.
    destruct (json_loads body) as [e | loaded].
    + unfold bind at 1, logger.
      rewrite (IH bodies' features
                 {| st_fs := st_fs st;
                    st_log := (st_log st
                               ++ [(WARNING,
                                    "unable to read file " +:+ p
                                    +:+ ", got error: " +:+ exc_str e)])%list;
                    st_log_files := st_log_files st |} Hrest).
      simpl. now rewrite <- app_assoc.
    + rewrite (IH bodies' (features ++ loaded)%list st Hrest).
      now rewrite <- app_assoc.
Qed.



End MoreTurns2.

(** ** Steps *)

Section Steps.

Context {ext : Externals}.




End Steps.




(** ** Features *)

Section Features.

Context {ext : Externals}.

(** With [only_failures], the features of the report are the features read
    whose status is failed, in the order read and under their names; no
    other feature is reported. *)
Theorem only_failures_reports_failed_features results basepath st0 features
    st1 rep st' :
  load results st0 = inr (features, st1) ->
  generate results basepath true st0 = inr (rep, st') ->
  map f_name (reported_features rep)
  = map f_name (filter (fun f => f_status f = "failed") features) /\
  Forall (fun f => f_status f = "failed") (reported_features rep).
Proof.
  intros Hload Hgen.
  destruct (generate_features _ _ _ _ _ _ _ _ Hload Hgen) as [Hall _].
  rewrite retained_true in Hall.
  assert (Hfailed : Forall (fun f => f_status f = "failed")
                      (filter (fun f => f_status f = "failed") features)).
  { apply Forall_forall. intros f Hf. now apply list_elem_of_filter in Hf. }
  revert Hfailed.
  induction Hall as [| fin fout l l' (st & st2 & H) _ IH]; intros Hfailed;
    [split; constructor |].
  apply process_feature_inr in H as (scs' & _ & Hn & Hs & _).
  inversion Hfailed as [| ? ? Hfin Hrest]; subst.
  destruct (IH Hrest) as [IHn IHs]. split.
  - simpl. now rewrite Hn, IHn.
  - constructor; [congruence | exact IHs].
Qed.


(** The turn of a feature whose status is skipped or untested, and whose
    scenarios have no timed step, leaves the file system as it is: nothing
    of the feature is copied into the report. *)
Theorem skipped_feature_copies_nothing results basepath feature st feature'
    st' :
  f_status feature ∈ ["skipped"; "untested"] ->
  Forall untimed (scenarios_of feature) ->
  process_feature results basepath feature st = inr (feature', st') ->
  st_fs st' = st_fs st.
Proof.
  intros Hstatus Hun. unfold process_feature. intros Hrun.
  set (pre := process_tags feature) in Hrun.
  assert (Hpre : f_status pre = f_status feature).
  { subst pre. destruct (process_tags_cases feature) as [-> | [v ->]]; reflexivity. }
  clearbody pre. rewrite Hpre in Hrun.
  rewrite bool_decide_eq_true_2 in Hrun by exact Hstatus.
  apply bind_inr in Hrun as ([] & st1 & Hret & H).
  unfold ret in Hret. inversion Hret; subst st1; clear Hret.
  apply bind_inr in H as ([[scs' f1] l1] & st2 & Hscs & H).
  apply bind_inr in H as (steps & st3 & Hsteps & H).
  apply lift_inr in Hsteps as [_ ->].
  apply bind_inr in H as (duration & st3 & Hdur & H).
  apply lift_inr in Hdur as [_ ->].
  unfold ret in H. inversion H; subst; clear H.
  apply for_scenarios_inr in Hscs as (_ & _ & _ & _ & _ & _ & _ & _ & _ & Hu).
  destruct (Hu Hun) as (_ & _ & Hfs). exact Hfs.
Qed.

End Features.

Lemma only_failures_reports_failed_features_witness :
  map f_name (reported_features Demo.failures_run.1) = ["Logout"] /\
  map f_name (reported_features Demo.failures_run.1)
  = map f_name (filter (fun f => f_status f = "failed") Demo.results_loaded.1) /\
  Forall (fun f => f_status f = "failed") (reported_features Demo.failures_run.1).
Proof.
  split; [vm_compute; reflexivity |].
  apply (only_failures_reports_failed_features (ext := Demo.plain) "/results"
           "/report" Demo.results_state Demo.results_loaded.1
           Demo.results_loaded.2 Demo.failures_run.1 Demo.failures_run.2);
    vm_compute; reflexivity.
Defined.


Lemma skipped_feature_copies_nothing_witness :
  os_path_exists (st_fs Cases.notes_state) "/notes/Parked" = false /\
  st_fs Cases.parked_turn.2 = st_fs Cases.notes_state.
Proof.
  split; [reflexivity |].
  apply (skipped_feature_copies_nothing (ext := Cases.externals) "/notes"
           "/report" Cases.parked Cases.notes_state Cases.parked_turn.1
           Cases.parked_turn.2).
  - apply list_elem_of_here.
  - repeat constructor.
  - vm_compute; reflexivity.
Defined.

(** ** Run files *)

Section Loading.

Context {ext : Externals}.

(** When every entry of the results directory named as a run file opens as
    a file, reading the run files does not fail, whatever their bodies: the
    features are those of the bodies that decode, in the order of the
    files; every body that does not decode gives one warning naming its
    file and no feature; and the file system is left as it is. *)
Theorem load_survives_malformed_bodies results st bodies :
  let run_json_filepaths :=
    glob_iglob (st_fs st) (os_path_join results "*run.json") in
  Forall2 (fun p body => read_file (st_fs st) p = inr body)
    run_json_filepaths bodies ->
  load results st
  = inr (decoded bodies,
         {| st_fs := st_fs st;
            st_log :=
              (st_log st
               ++ (INFO,
                   "Starting to process "
                   +:+ Str.of_int (Z.of_nat (length run_json_filepaths))
                   +:+ " files for report")
                  :: warnings (zip run_json_filepaths bodies))%list;
            st_log_files := st_log_files st |}).
Proof.
  intros paths Hall. unfold load, bind at 1, get_fs. fold paths.
  unfold bind, logger.
  rewrite (for_run_json_filepaths_readable paths bodies []
             {| st_fs := st_fs st;
                st_log := (st_log st
                           ++ [(INFO,
                                "Starting to process "
                                +:+ Str.of_int (Z.of_nat (length paths))
                                +:+ " files for report")])%list;
                st_log_files := st_log_files st |} Hall).
  simpl. now rewrite <- app_assoc.
Qed.

End Loading.

Lemma load_survives_malformed_bodies_witness :
  glob_iglob (st_fs Demo.results_state) (os_path_join "/results" "*run.json")
  = ["/results/bad-run.json"; "/results/logout-run.json";
     "/results/login-run.json"] /\
  load (ext := Demo.plain) "/results" Demo.results_state
  = inr ([Demo.logout; Demo.login; Demo.draft],
         {| st_fs := st_fs Demo.results_state;
            st_log :=
              [(INFO, "Starting to process 3 files for report");
               (WARNING,
                "unable to read file /results/bad-run.json, got error: "
                +:+ "Expecting value: line 1 column 1 (char 0)")];
            st_log_files := None |}).
Proof.
  split; [vm_compute; reflexivity |].
  apply (load_survives_malformed_bodies (ext := Demo.plain) "/results"
           Demo.results_state ["{"; "[Logout]"; "[Login, Draft]"]).
  vm_compute. repeat constructor.
Defined.

(** ** Logs *)

Section Logs.

Context {ext : Externals}.



End Logs.



(** ** The report directory *)

Lemma kept_refl fs : kept fs fs.
Proof. intros p Hp. exact Hp. Qed.

Lemma kept_trans fs1 fs2 fs3 : kept fs1 fs2 -> kept fs2 fs3 -> kept fs1 fs3.
Proof. intros H12 H23 p Hp. auto. Qed.

Lemma kept_insert fs p n : kept fs (<[p := n]> fs).
Proof.
  intros q Hq. destruct (decide (p = q)) as [-> | Hne].
  - rewrite lookup_insert_eq. eauto.
  - now rewrite lookup_insert_ne.
Qed.

Lemma grows_ret {A : Type} (a : A) : grows (ret a).
Proof. intros st b st' H. inversion H; subst. apply kept_refl. Qed.

Lemma grows_bind {A B : Type} (m : M A) (k : A -> M B) :
  grows m -> (forall a, grows (k a)) -> grows (bind m k).
Proof.
  intros Hm Hk st b st' H.
  apply bind_inr in H as (a & st1 & H1 & H2).
  eapply kept_trans; [eapply Hm | eapply Hk]; eauto.
Qed.

Lemma grows_lift {A : Type} (r : exception + A) : grows (lift r).
Proof.
  intros st a st' H. unfold lift in H. destruct r; inversion H; subst.
  apply kept_refl.
Qed.

Lemma grows_get_fs : grows get_fs.
Proof. intros st a st' H. inversion H; subst. apply kept_refl. Qed.

Lemma grows_logger lvl msg : grows (logger lvl msg).
Proof. intros st a st' H. inversion H; subst. apply kept_refl. Qed.

Lemma grows_assign_log_files v : grows (assign_log_files v).
Proof. intros st a st' H. inversion H; subst. apply kept_refl. Qed.

Lemma grows_read_log_files : grows read_log_files.
Proof.
  intros st a st' H. unfold read_log_files in H.
  destruct (st_log_files st); inversion H; subst. apply kept_refl.
Qed.

Lemma grows_on_fs op :
  (forall fs fs', op fs = inr fs' -> kept fs fs') -> grows (on_fs op).
Proof.
  intros Hop st a st' H. unfold on_fs in H.
  destruct (op (st_fs st)) as [e | fs'] eqn:E; inversion H; subst. simpl. auto.
Qed.

Lemma write_text_kept p c fs fs' : write_text p c fs = inr fs' -> kept fs fs'.
Proof.
  unfold write_text. intros H.
  destruct (fs !! p) as [[content |] |]; try discriminate;
    destruct (os_path_isdir fs _); inversion H; subst; apply kept_insert.
Qed.

Lemma copy_kept src dst (fs : gmap string node) entries :
  kept fs (foldr (fun '(p, n) acc =>
                    match under src p with
                    | Some rel => <[dst +:+ rel := n]> acc
                    | None => acc
                    end) fs entries).
Proof.
  induction entries as [| [p n] entries IH]; [apply kept_refl |].
  simpl. destruct (under src p); [| exact IH].
  eapply kept_trans; [exact IH | apply kept_insert].
Qed.

Lemma copy_lands src dst (fs : gmap string node) entries p n rel :
  (p, n) ∈ entries -> under src p = Some rel ->
  is_Some (foldr (fun '(p, n) acc =>
                    match under src p with
                    | Some rel => <[dst +:+ rel := n]> acc
                    | None => acc
                    end) fs entries !! (dst +:+ rel)).
Proof.
  induction entries as [| [q m] entries IH]; intros Hin Hrel; [inversion Hin |].
  simpl. apply elem_of_cons in Hin as [Heq | Hin].
  - injection Heq as <- <-. rewrite Hrel, lookup_insert_eq. eauto.
  - destruct (under src q); [| auto]. apply kept_insert. auto.
Qed.

Lemma shutil_copytree_kept src dst dirs_exist_ok fs fs' :
  shutil_copytree src dst dirs_exist_ok fs = inr fs' ->
  kept fs fs' /\ is_Some (fs' !! dst).
Proof.
  unfold shutil_copytree. intros H.
  destruct (fs !! src) as [[content |] |] eqn:Hsrc; try discriminate.
  destruct (os_path_exists fs dst && negb dirs_exist_ok); inversion H; subst.
  split; [apply copy_kept |].
  assert (Hland := copy_lands src dst fs (map_to_list fs) src Dir "").
  assert (Hdst : dst +:+ "" = dst).
  { clear. induction dst as [| c dst IH]; [reflexivity |].
    change (String c dst +:+ "") with (String c (dst +:+ "")). now rewrite IH. }
  rewrite Hdst in Hland. apply Hland.
  - now apply elem_of_map_to_list.
  - unfold under. now rewrite String.eqb_refl.
Qed.

Lemma copytree_existing_raises src dst fs :
  os_path_exists fs dst = true ->
  exists e,
    shutil_copytree src dst false fs = inl e /\
    (fs !! src = Some Dir -> e = Raise FileExistsError dst).
Proof.
  intros Hex. unfold shutil_copytree.
  destruct (fs !! src) as [[content |] |];
    try (eexists; split; [reflexivity | discriminate]).
  rewrite Hex. simpl. eexists. split; reflexivity.
Qed.

Section ReportDirectory.

Context {ext : Externals}.

Lemma grows_for_console_logs scenario_filepath console :
  grows (for_console_logs scenario_filepath console).
Proof.
  induction console as [| log_file console IH]; simpl; [apply grows_ret |].
  apply grows_bind; [apply grows_get_fs | intros fs].
  apply grows_bind; [apply grows_lift | intros text].
  apply grows_bind; [apply grows_lift | intros html].
  apply grows_bind; [| intros _; exact IH].
  apply grows_on_fs. intros fs1 fs2. apply write_text_kept.
Qed.

Lemma grows_process_scenario basepath scenario feature l :
  grows (process_scenario basepath scenario feature l).
Proof.
  unfold process_scenario.
  apply grows_bind; [apply grows_get_fs | intros fs].
  apply grows_bind; [apply grows_lift | intros [[steps sc] sl]].
  apply grows_bind.
  { destruct (os_path_exists fs _); [| apply grows_ret].
    apply grows_bind; [apply grows_assign_log_files | intros _; apply grows_ret]. }
  intros sc'. apply grows_bind; [| intros [[sc2 f2] started]; apply grows_ret].
  destruct (scenario_started_at sl) as [t |]; [| apply grows_ret].
  destruct (feature_started_at _); lazy beta iota.
  - apply grows_bind; [apply grows_read_log_files | intros log_files].
    apply grows_bind; [apply grows_for_console_logs | intros _; apply grows_ret].
  - apply grows_bind; [apply grows_read_log_files | intros log_files].
    apply grows_bind; [apply grows_for_console_logs | intros _; apply grows_ret].
Qed.

Lemma grows_for_scenarios basepath scenarios : forall feature l,
  grows (for_scenarios basepath scenarios feature l).
Proof.
  induction scenarios as [| scenario scenarios IH]; intros feature l; simpl;
    [apply grows_ret |].
  apply grows_bind; [apply grows_process_scenario | intros [[sc f] l']].
  apply grows_bind; [apply IH | intros [[scs f2] l2]; apply grows_ret].
Qed.

Lemma grows_process_feature results basepath feature :
  grows (process_feature results basepath feature).
Proof.
  unfold process_feature.
  apply grows_bind.
  { case_bool_decide; [apply grows_ret |].
    apply grows_on_fs. intros fs fs' Hcopy.
    now apply shutil_copytree_kept in Hcopy as [Hkept _]. }
  intros _. apply grows_bind; [apply grows_for_scenarios | intros [[scs f] l]].
  apply grows_bind; [apply grows_lift | intros steps].
  apply grows_bind; [apply grows_lift | intros duration]. apply grows_ret.
Qed.

Lemma grows_for_features results basepath only_failures features :
  forall reported, grows (for_features results basepath only_failures features reported).
Proof.
  induction features as [| feature features IH]; intros reported; simpl;
    [apply grows_ret |].
  destruct (dropped only_failures feature); [apply IH |].
  apply grows_bind; [apply grows_process_feature | intros f; apply IH].
Qed.

Lemma for_run_json_filepaths_fs paths : forall features st found st',
  for_run_json_filepaths paths features st = inr (found, st') ->
  st_fs st' = st_fs st.
Proof.
  induction paths as [| p paths IH]; intros features st found st' H; simpl in H.
  - inversion H; subst. reflexivity.
  - apply bind_inr in H as (body & st1 & Hopen & H).
    unfold open_rb in Hopen.
    apply bind_inr in Hopen as (fs & st2 & Hfs & Hread).
    inversion Hfs; subst. apply lift_inr in Hread as [_ ->].
    destruct (json_loads body) as [e | loaded]; [| eauto].
    apply bind_inr in H as ([] & st3 & Hlog & H).
    inversion Hlog; subst. now apply IH in H.
Qed.

Lemma load_fs results st features st1 :
  load results st = inr (features, st1) -> st_fs st1 = st_fs st.
Proof.
  unfold load. intros H.
  apply bind_inr in H as (fs & st2 & Hfs & H). inversion Hfs; subst.
  apply bind_inr in H as ([] & st3 & Hlog & H). inversion Hlog; subst.
  now apply for_run_json_filepaths_fs in H.
Qed.

(** [generate] does not write into a report directory that already holds
    an [external] entry: it raises, with [FileExistsError] naming that
    entry when the run files could be read and cucu's own external
    directory is there. *)
Theorem existing_report_is_refused results basepath only_failures st :
  os_path_exists (st_fs st) (os_path_join basepath "external") = true ->
  exists e,
    generate results basepath only_failures st = inl e /\
    ((exists features st1, load results st = inr (features, st1)) ->
     st_fs st !! os_path_join3 cucu_dir "reporter" "external" = Some Dir ->
     e = Raise FileExistsError (os_path_join basepath "external")).
Proof.
  intros Hex. unfold generate.
  destruct (load results st) as [e | [features st1]] eqn:Hload.
  { exists e. split; [now rewrite (bind_inl _ _ _ _ Hload) |].
    now intros (features & st1 & ?). }
  apply load_fs in Hload as Hfs. rewrite <- Hfs in Hex.
  destruct (copytree_existing_raises
              (os_path_join3 cucu_dir "reporter" "external")
              (os_path_join basepath "external") (st_fs st1) Hex)
    as (e & He & Hkind).
  exists e. split.
  - unfold bind at 1. rewrite Hload. unfold bind at 1, on_fs. now rewrite He.
  - intros _ Hdir. apply Hkind. now rewrite Hfs.
Qed.

(** Once [generate] has returned, a second run into the same report
    directory raises, whatever results it is given: the first run left
    the [external] entry there and nothing of the run takes a path off
    the file system. *)
Theorem second_run_is_refused results basepath only_failures st rep st'
    results' only_failures' :
  generate results basepath only_failures st = inr (rep, st') ->
  fails (generate results' basepath only_failures' st').
Proof.
  intros H.
  assert (Hex : os_path_exists (st_fs st') (os_path_join basepath "external") = true).
  { unfold generate in H.
    apply bind_inr in H as (features & st1 & _ & H).
    apply bind_inr in H as ([] & st2 & Hcopy & H).
    apply bind_inr in H as (reported & st3 & Hfeatures & H).
    apply bind_inr in H as (totals & st4 & Htotals & H).
    apply lift_inr in Htotals as [_ ->]. inversion H; subst.
    unfold on_fs in Hcopy.
    destruct (shutil_copytree _ _ _ _) as [e | fs'] eqn:E; [discriminate |].
    inversion Hcopy; subst.
    apply shutil_copytree_kept in E as [_ Hdst].
    apply grows_for_features in Hfeatures. simpl in Hfeatures.
    apply Hfeatures in Hdst. unfold os_path_exists.
    now destruct Hdst as [n ->]. }
  unfold generate.
  destruct (load results' st') as [e | [features st1]] eqn:Hload.
  { exists e. now rewrite (bind_inl _ _ _ _ Hload). }
  apply load_fs in Hload as Hfs. rewrite <- Hfs in Hex.
  destruct (copytree_existing_raises
              (os_path_join3 cucu_dir "reporter" "external")
              (os_path_join basepath "external") (st_fs st1) Hex)
    as (e & He & _).
  exists e. unfold bind at 1. rewrite Hload. unfold bind at 1, on_fs.
  now rewrite He.
Qed.

End ReportDirectory.

Lemma existing_report_is_refused_witness :
  exists e,
    generate (ext := Demo.plain) "/results" "/report" false Reuse.reused_state
    = inl e /\
    ((exists features st1,
        load (ext := Demo.plain) "/results" Reuse.reused_state
        = inr (features, st1)) ->
     st_fs Reuse.reused_state
       !! os_path_join3 (cucu_dir (Externals := Demo.plain)) "reporter" "external"
     = Some Dir ->
     e = Raise FileExistsError (os_path_join "/report" "external")).
Proof.
  apply (existing_report_is_refused (ext := Demo.plain)).
  vm_compute. reflexivity.
Defined.

Lemma second_run_is_refused_witness :
  fails (generate (ext := Demo.plain) "/results" "/report" true
           Demo.results_run.2).
Proof.
  apply (second_run_is_refused (ext := Demo.plain) "/results" "/report" false
           Demo.results_state Demo.results_run.1 Demo.results_run.2).
  vm_compute. reflexivity.
Defined.

(** * Escaping *)

Lemma append_cons c s t : String c s +:+ t = String c (s +:+ t).
Proof. reflexivity. Qed.

Lemma append_assoc (a b c : string) : (a +:+ b) +:+ c = a +:+ (b +:+ c).
Proof.
  induction a as [| x a IH]; [reflexivity |].
  now rewrite !append_cons, IH.
Qed.

Lemma each_char_append f s t :
  each_char f (s +:+ t) = each_char f s +:+ each_char f t.
Proof.
  induction s as [| c s IH]; [reflexivity |].
  rewrite append_cons. simpl. now rewrite IH, append_assoc.
Qed.

Lemma each_char_compose f g s :
  each_char g (each_char f s) = each_char (fun c => each_char g (f c)) s.
Proof.
  induction s as [| c s IH]; simpl; [reflexivity |].
  now rewrite each_char_append, IH.
Qed.

Lemma each_char_ext f g s :
  (forall c, f c = g c) -> each_char f s = each_char g s.
Proof.
  intros Hfg. induction s as [| c s IH]; simpl; [reflexivity |].
  now rewrite Hfg, IH.
Qed.

Lemma replace1_each old new s :
  Text.replace1 old new s
  = each_char (fun c => if Ascii.eqb c old then new else String c "") s.
Proof.
  induction s as [| c s IH]; simpl; [reflexivity |].
  rewrite IH. destruct (Ascii.eqb c old); reflexivity.
Qed.

Lemma has_char_append c s t :
  has_char c (s +:+ t) = has_char c s || has_char c t.
Proof.
  induction s as [| d s IH]; [reflexivity |].
  rewrite append_cons. simpl. now rewrite IH, orb_assoc.
Qed.

Lemma has_char_each c f s :
  (forall d, has_char c (f d) = false) -> has_char c (each_char f s) = false.
Proof.
  intros Hf. induction s as [| d s IH]; simpl; [reflexivity |].
  now rewrite has_char_append, Hf, IH.
Qed.

Lemma saxutils_escape_each data :
  saxutils_escape data [(dquote, "&quot;")] = each_char escape_char data.
Proof.
  unfold saxutils_escape. simpl. rewrite !replace1_each, !each_char_compose.
  apply each_char_ext. intros c. unfold escape_char.
  destruct (Ascii.eqb c "&") eqn:E1;
    [apply Ascii.eqb_eq in E1; subst c; reflexivity |].
  simpl. destruct (Ascii.eqb c ">") eqn:E2;
    [apply Ascii.eqb_eq in E2; subst c; reflexivity |].
  simpl. destruct (Ascii.eqb c "<") eqn:E3;
    [apply Ascii.eqb_eq in E3; subst c; reflexivity |].
  simpl. destruct (Ascii.eqb c dquote) eqn:E4;
    [apply Ascii.eqb_eq in E4; subst c; reflexivity |].
  reflexivity.
Qed.

Lemma urlencode_each s : urlencode s = each_char urlencode_char s.
Proof.
  unfold urlencode. rewrite !replace1_each, !each_char_compose.
  apply each_char_ext. intros c. unfold urlencode_char.
  destruct (Ascii.eqb c dquote) eqn:E1;
    [apply Ascii.eqb_eq in E1; subst c; reflexivity |].
  simpl. destruct (Ascii.eqb c "'") eqn:E2;
    [apply Ascii.eqb_eq in E2; subst c; reflexivity |].
  simpl. destruct (Ascii.eqb c "#") eqn:E3;
    [apply Ascii.eqb_eq in E3; subst c; reflexivity |].
  reflexivity.
Qed.

Lemma escape_char_clean c d :
  d = "<"%char \/ d = ">"%char \/ d = dquote ->
  has_char d (escape_char c) = false.
Proof.
  intros Hd. unfold escape_char.
  destruct (Ascii.eqb c "&") eqn:E1;
    [destruct Hd as [-> | [-> | ->]]; reflexivity |].
  destruct (Ascii.eqb c ">") eqn:E2;
    [destruct Hd as [-> | [-> | ->]]; reflexivity |].
  destruct (Ascii.eqb c "<") eqn:E3;
    [destruct Hd as [-> | [-> | ->]]; reflexivity |].
  destruct (Ascii.eqb c dquote) eqn:E4;
    [destruct Hd as [-> | [-> | ->]]; reflexivity |].
  simpl. rewrite orb_false_r. destruct Hd as [-> | [-> | ->]]; assumption.
Qed.

Lemma urlencode_char_clean c d :
  d = dquote \/ d = "'"%char \/ d = "#"%char ->
  has_char d (urlencode_char c) = false.
Proof.
  intros Hd. unfold urlencode_char.
  destruct (Ascii.eqb c dquote) eqn:E1;
    [destruct Hd as [-> | [-> | ->]]; reflexivity |].
  destruct (Ascii.eqb c "'") eqn:E2;
    [destruct Hd as [-> | [-> | ->]]; reflexivity |].
  destruct (Ascii.eqb c "#") eqn:E3;
    [destruct Hd as [-> | [-> | ->]]; reflexivity |].
  simpl. rewrite orb_false_r. destruct Hd as [-> | [-> | ->]]; assumption.
Qed.

(** ** Stripping *)

Lemma rstrip_bytes_spec (n : nat) : forall l, (length l <= n)%nat ->
  (exists k, l = (k ++ Text.rstrip_bytes l)%list) /\
  Text.rstrip_bytes (Text.rstrip_bytes l) = Text.rstrip_bytes l.
Proof.
  induction n as [| n IH]; intros l Hlen.
  - destruct l; [| simpl in Hlen; lia]. split; [now exists [] | reflexivity].
  - destruct l as [| c1 r1]; [split; [now exists [] | reflexivity] |].
    simpl in Hlen. simpl Text.rstrip_bytes at 1 3 4.
    destruct (Text.space1 c1) eqn:E1.
    { destruct (IH r1 ltac:(lia)) as [[k Hk] Hi]. split; [| exact Hi].
      exists (c1 :: k). simpl. now rewrite <- Hk. }
    destruct r1 as [| c2 r2].
    { split; [now exists [] |]. simpl. now rewrite E1. }
    destruct (Text.space2 c2 c1) eqn:E2.
    { simpl in Hlen. destruct (IH r2 ltac:(lia)) as [[k Hk] Hi].
      split; [| exact Hi]. exists (c1 :: c2 :: k). simpl. now rewrite <- Hk. }
    destruct r2 as [| c3 r3].
    { split; [now exists [] |]. simpl. now rewrite E1, E2. }
    destruct (Text.space3 c3 c2 c1) eqn:E3.
    { simpl in Hlen. destruct (IH r3 ltac:(lia)) as [[k Hk] Hi].
      split; [| exact Hi]. exists (c1 :: c2 :: c3 :: k). simpl.
      now rewrite <- Hk. }
    split; [now exists [] |]. simpl. now rewrite E1, E2, E3.
Qed.

Lemma rstrip_idempotent s : Text.rstrip (Text.rstrip s) = Text.rstrip s.
Proof.
  unfold Text.rstrip. rewrite String.list_ascii_of_string_of_list_ascii.
  rewrite rev_involutive.
  now rewrite (proj2 (rstrip_bytes_spec _ _ (le_n _))).
Qed.

Lemma has_char_list c s :
  has_char c s = true <-> c ∈ String.list_ascii_of_string s.
Proof.
  induction s as [| d s IH]; simpl.
  - split; [discriminate | intros H; inversion H].
  - rewrite orb_true_iff, IH, elem_of_cons, Ascii.eqb_eq.
    split; intros [H | H]; auto.
Qed.

Lemma has_char_rstrip c s :
  has_char c s = false -> has_char c (Text.rstrip s) = false.
Proof.
  intros Hs. destruct (has_char c (Text.rstrip s)) eqn:E; [| reflexivity].
  apply has_char_list in E. unfold Text.rstrip in E.
  rewrite String.list_ascii_of_string_of_list_ascii in E.
  destruct (proj1 (rstrip_bytes_spec _ (rev (String.list_ascii_of_string s))
                     (le_n _))) as [k Hk].
  assert (Hin : c ∈ String.list_ascii_of_string s).
  { apply list_elem_of_In, in_rev. rewrite Hk. apply in_or_app. right.
    apply in_rev. now apply list_elem_of_In. }
  apply has_char_list in Hin. congruence.
Qed.

(** ** The properties *)

(** [escape] works in one pass: each of [&], [>], [<] and the double quote
    is written as its entity and every other character as itself, no
    replacement touching what an earlier one wrote; the white space at the
    end is then taken off. *)
Theorem escape_in_one_pass data :
  escape (Some data) = Some (Text.rstrip (each_char escape_char data)).
Proof. unfold escape. now rewrite saxutils_escape_each. Qed.

(** The text that [escape] returns holds no [<], no [>] and no double
    quote, and does not end with white space. *)
Theorem escape_leaves_no_markup data out :
  escape data = Some out ->
  has_char "<" out = false /\ has_char ">" out = false /\
  has_char dquote out = false /\ Text.rstrip out = out.
Proof.
  destruct data as [data |]; [| discriminate].
  unfold escape. rewrite saxutils_escape_each. intros H. injection H as <-.
  repeat split.
  - apply has_char_rstrip, has_char_each. intros d.
    apply escape_char_clean. auto.
  - apply has_char_rstrip, has_char_each. intros d.
    apply escape_char_clean. auto.
  - apply has_char_rstrip, has_char_each. intros d.
    apply escape_char_clean. auto.
  - apply rstrip_idempotent.
Qed.

(** [urlencode] works in one pass: the double quote, the single quote and
    [#] are written as [%22], [%27] and [%23] and every other character,
    the space and [%] included, as itself; the text returned holds none of
    the three. *)
Theorem urlencode_in_one_pass s :
  urlencode s = each_char urlencode_char s /\
  has_char dquote (urlencode s) = false /\
  has_char "'" (urlencode s) = false /\
  has_char "#" (urlencode s) = false.
Proof.
  rewrite urlencode_each. split; [reflexivity |].
  repeat split; apply has_char_each; intros d; apply urlencode_char_clean;
    auto.
Qed.

Lemma escape_leaves_no_markup_witness :
  escape (Some ("a < b && c > " +:+ String dquote "d " +:+ " "))
  = Some "a &lt; b &amp;&amp; c &gt; &quot;d" /\
  has_char "<" "a &lt; b &amp;&amp; c &gt; &quot;d" = false /\
  has_char ">" "a &lt; b &amp;&amp; c &gt; &quot;d" = false /\
  has_char dquote "a &lt; b &amp;&amp; c &gt; &quot;d" = false /\
  Text.rstrip "a &lt; b &amp;&amp; c &gt; &quot;d"
  = "a &lt; b &amp;&amp; c &gt; &quot;d".
Proof.
  split; [reflexivity |].
  apply (escape_leaves_no_markup
           (Some ("a < b && c > " +:+ String dquote "d " +:+ " "))).
  reflexivity.
Defined.

(** * The language server *)

(** ** Sorting *)

Lemma insert_desc_perm {A : Type} (key : A -> Z) x l :
  insert_desc key x l ≡ₚ x :: l.
Proof.
  induction l as [| y l IH]; simpl; [reflexivity |].
  destruct (key x <? key y); [| reflexivity].
  rewrite IH. apply perm_swap.
Qed.

Lemma sort_desc_perm {A : Type} (key : A -> Z) l : sort_desc key l ≡ₚ l.
Proof.
  induction l as [| x l IH]; simpl; [reflexivity |].
  now rewrite insert_desc_perm, IH.
Qed.

Lemma insert_desc_sorted {A : Type} (key : A -> Z) x l :
  StronglySorted (fun a b => key b <= key a) l ->
  StronglySorted (fun a b => key b <= key a) (insert_desc key x l).
Proof.
  induction 1 as [| y l Hl IH Hy]; simpl; [repeat constructor |].
  destruct (key x <? key y) eqn:E.
  - apply Z.ltb_lt in E. constructor; [exact IH |].
    rewrite insert_desc_perm. constructor; [lia | exact Hy].
  - apply Z.ltb_ge in E. constructor; [now constructor |].
    constructor; [exact E |].
    eapply Forall_impl; [exact Hy |]. simpl. intros z Hz. lia.
Qed.

Lemma sort_desc_sorted {A : Type} (key : A -> Z) l :
  StronglySorted (fun a b => key b <= key a) (sort_desc key l).
Proof.
  induction l as [| x l IH]; simpl; [constructor |].
  now apply insert_desc_sorted.
Qed.

(** ** Prefixes *)

Lemma prefix_trans a : forall b c,
  String.prefix a b = true -> String.prefix b c = true ->
  String.prefix a c = true.
Proof.
  induction a as [| x a IH]; intros b c Hab Hbc; [now destruct c |].
  destruct b as [| y b]; [discriminate |].
  destruct c as [| z c]; [discriminate |].
  simpl in *.
  destruct (ascii_dec x y) as [-> |]; [| discriminate].
  destruct (ascii_dec y z) as [-> |]; [| discriminate].
  destruct (ascii_dec z z); [| congruence]. eauto.
Qed.

Lemma match_keyword_prefix line name group :
  match_keyword line = Some group ->
  Str.startswith name line = true ->
  match_keyword name <> None.
Proof.
  unfold match_keyword, Str.startswith. intros Hline Hname.
  destruct (String.prefix "Given " line) eqn:E1.
  { now rewrite (prefix_trans _ _ _ E1 Hname). }
  destruct (String.prefix "When " line) eqn:E2.
  { rewrite (prefix_trans _ _ _ E2 Hname).
    now destruct (String.prefix "Given " name). }
  destruct (String.prefix "Then " line) eqn:E3.
  { rewrite (prefix_trans _ _ _ E3 Hname).
    now destruct (String.prefix "Given " name), (String.prefix "When " name). }
  destruct (String.prefix "And " line) eqn:E4; [| discriminate].
  rewrite (prefix_trans _ _ _ E4 Hname).
  now destruct (String.prefix "Given " name), (String.prefix "When " name),
    (String.prefix "Then " name).
Qed.

Section Completions.

Variable fuzz_ratio : string -> string -> Z.
Variable cucu_steps_output : exception + string.

(** When a step of the cache starts with the fragment, [find_completions]
    offers the steps that start with it and no other, in the order of the
    cache and each with its [filepath:line]; the ratio plays no part. *)
Theorem find_completions_by_prefix step_fragment steps_cache :
  Exists (fun item => Str.startswith item.1 step_fragment = true) steps_cache ->
  find_completions fuzz_ratio cucu_steps_output step_fragment (Some steps_cache)
  = inr (map completion_of
           (filter (fun item => Str.startswith item.1 step_fragment = true)
              steps_cache)).
Proof.
  intros Hex. unfold find_completions. simpl.
  apply Exists_exists in Hex as (item & Hin & Hitem).
  assert (Hmem : item ∈ filter (fun item : string * Location =>
                     Str.startswith item.1 step_fragment = true) steps_cache).
  { apply list_elem_of_filter. auto. }
  destruct (filter _ steps_cache) as [| y l]; [inversion Hmem | reflexivity].
Qed.

Lemma find_completions_no_prefix step_fragment steps_cache :
  Forall (fun item => Str.startswith item.1 step_fragment = false) steps_cache ->
  find_completions fuzz_ratio cucu_steps_output step_fragment (Some steps_cache)
  = inr (sort_desc
           (fun completion_item : string * string =>
              fuzz_ratio completion_item.1 step_fragment)
           (map completion_of
              (filter (fun item => 40 < fuzz_ratio step_fragment item.1)
                 steps_cache))).
Proof.
  intros Hnone. unfold find_completions. simpl.
  assert (Hempty : filter (fun item : string * Location =>
                     Str.startswith item.1 step_fragment = true) steps_cache = []).
  { induction Hnone as [| item l Hitem _ IH]; [reflexivity |].
    rewrite filter_cons. destruct (decide _) as [Ht | _]; [congruence | exact IH]. }
  now rewrite Hempty.
Qed.

(** When no step of the cache starts with the fragment, [find_completions]
    offers the steps whose ratio to the fragment is above 40, each once
    and with its [filepath:line], sorted by their ratio, the greatest
    first. *)
Theorem find_completions_by_ratio step_fragment steps_cache :
  Forall (fun item => Str.startswith item.1 step_fragment = false) steps_cache ->
  exists items,
    find_completions fuzz_ratio cucu_steps_output step_fragment
      (Some steps_cache) = inr items /\
    items ≡ₚ map completion_of
               (filter (fun item => 40 < fuzz_ratio step_fragment item.1)
                  steps_cache) /\
    StronglySorted
      (fun a b => fuzz_ratio b.1 step_fragment <= fuzz_ratio a.1 step_fragment)
      items.
Proof.
  intros Hnone. rewrite (find_completions_no_prefix _ _ Hnone).
  eexists. split; [reflexivity |].
  split; [apply sort_desc_perm |].
  apply (sort_desc_sorted
           (fun completion_item : string * string =>
              fuzz_ratio completion_item.1 step_fragment)).
Qed.

(** [completions] looks the steps up with the whole line, keyword
    included: when no step of the cache has a name that starts with a
    keyword and a space, no step is ever found by prefix, and the items
    returned are the steps whose ratio to the line (keyword included) is
    above 40, each once. *)
Theorem completions_never_by_prefix source position_line steps_cache items :
  Forall (fun item => match_keyword item.1 = None) steps_cache ->
  completions fuzz_ratio cucu_steps_output source position_line steps_cache
  = inr items ->
  exists raw,
    Split.on_char newline "" source !! position_line = Some raw /\
    Forall (fun item => Str.startswith item.1 (Text.lstrip raw) = false)
      steps_cache /\
    map label items
    ≡ₚ map fst (filter (fun item => 40 < fuzz_ratio (Text.lstrip raw) item.1)
                  steps_cache).
Proof.
  intros Hnames. unfold completions. intros H.
  destruct (Split.on_char newline "" source !! position_line) as [raw |];
    [| discriminate].
  simpl in H. exists raw. split; [reflexivity |].
  destruct (match_keyword (Text.lstrip raw)) as [step_line |] eqn:Hkw;
    [| discriminate].
  simpl in H.
  assert (Hnone : Forall (fun item : string * Location =>
                     Str.startswith item.1 (Text.lstrip raw) = false)
                    steps_cache).
  { eapply Forall_impl; [exact Hnames |]. intros item Hitem.
    destruct (Str.startswith item.1 (Text.lstrip raw)) eqn:E; [| reflexivity].
    now destruct (match_keyword_prefix _ _ _ Hkw E). }
  split; [exact Hnone |].
  rewrite (find_completions_no_prefix _ _ Hnone) in H.
  simpl in H. injection H as <-.
  rewrite map_map.
  rewrite (map_ext _ fst) by (now intros [name location]).
  rewrite sort_desc_perm, map_map.
  now rewrite (map_ext _ fst) by (now intros [name location]).
Qed.

End Completions.

(** ** Splitting *)

Lemma append_nil_r (s : string) : s +:+ "" = s.
Proof. induction s as [| c s IH]; [reflexivity |]. now rewrite append_cons, IH. Qed.

Lemma on_char_line sep a : has_char sep a = false ->
  forall acc rest,
    Split.on_char sep acc (a +:+ String sep rest)
    = (acc +:+ a) :: Split.on_char sep "" rest.
Proof.
  induction a as [| c a IH]; intros Ha acc rest.
  - change ("" +:+ String sep rest) with (String sep rest). simpl.
    now rewrite Ascii.eqb_refl, append_nil_r.
  - simpl in Ha. apply orb_false_iff in Ha as [Hc Ha].
    rewrite append_cons. simpl. rewrite Hc, (IH Ha).
    now rewrite append_assoc.
Qed.

Lemma on_char_last sep a : has_char sep a = false ->
  forall acc, Split.on_char sep acc a = [acc +:+ a].
Proof.
  induction a as [| c a IH]; intros Ha acc.
  - simpl. now rewrite append_nil_r.
  - simpl in Ha. apply orb_false_iff in Ha as [Hc Ha].
    simpl. rewrite Hc, (IH Ha). now rewrite append_assoc.
Qed.

Lemma on_pair_chunk chunk : single_spaced chunk = true ->
  forall acc rest,
    Split.on_pair newline newline acc
      (chunk +:+ String newline (String newline rest))
    = (acc +:+ chunk) :: Split.on_pair newline newline "" rest.
Proof.
  induction chunk as [| c chunk IH]; intros Hc acc rest.
  - change ("" +:+ ?s) with s. simpl. now rewrite append_nil_r.
  - rewrite append_cons.
    assert (Hstep : Split.on_pair newline newline acc
                      (String c (chunk +:+ String newline (String newline rest)))
                    = Split.on_pair newline newline (acc +:+ String c "")
                        (chunk +:+ String newline (String newline rest))).
    { simpl in Hc. destruct chunk as [| d chunk].
      - destruct (Ascii.eqb c newline) eqn:E; [discriminate |].
        change ("" +:+ ?s) with s. simpl. now rewrite E.
      - rewrite append_cons. simpl.
        destruct (Ascii.eqb c newline) eqn:E; [| reflexivity].
        apply andb_true_iff in Hc as [Hd _].
        apply negb_true_iff in Hd. now rewrite Hd. }
    rewrite Hstep, IH, append_assoc; [reflexivity |].
    simpl in Hc. destruct (Ascii.eqb c newline); [| exact Hc].
    destruct chunk; [discriminate |]. now apply andb_true_iff in Hc as [_ Hc].
Qed.

Lemma on_pair_last chunk : single_spaced chunk = true ->
  forall acc, Split.on_pair newline newline acc chunk = [acc +:+ chunk].
Proof.
  induction chunk as [| c chunk IH]; intros Hc acc.
  - simpl. now rewrite append_nil_r.
  - assert (Hrest : single_spaced chunk = true).
    { simpl in Hc. destruct (Ascii.eqb c newline); [| exact Hc].
      destruct chunk; [discriminate |]. now apply andb_true_iff in Hc as [_ Hc]. }
    destruct chunk as [| d chunk].
    + simpl. reflexivity.
    + assert (Hstep : Split.on_pair newline newline acc (String c (String d chunk))
                      = Split.on_pair newline newline (acc +:+ String c "")
                          (String d chunk)).
      { simpl in Hc. simpl.
        destruct (Ascii.eqb c newline) eqn:E; [| reflexivity].
        apply andb_true_iff in Hc as [Hd _].
        apply negb_true_iff in Hd. now rewrite Hd. }
      rewrite Hstep, (IH Hrest), append_assoc. reflexivity.
Qed.

Lemma on_pair_join chunks : Forall (fun chunk => single_spaced chunk = true) chunks ->
  chunks <> [] ->
  Split.on_pair newline newline ""
    (Str.join (String newline (String newline "")) chunks) = chunks.
Proof.
  unfold Str.join. induction 1 as [| chunk chunks Hc Hcs IH]; [congruence |].
  intros _. destruct chunks as [| next chunks].
  - simpl. now rewrite on_pair_last.
  - change (String.concat ?sep (chunk :: next :: chunks))
      with (chunk +:+ sep +:+ String.concat sep (next :: chunks)).
    change (String newline (String newline "") +:+ ?s)
      with (String newline (String newline s)).
    rewrite on_pair_chunk by exact Hc. rewrite IH by congruence. reflexivity.
Qed.

Lemma single_spaced_prefix a b : has_char newline a = false ->
  single_spaced (a +:+ b) = single_spaced b.
Proof.
  induction a as [| c a IH]; intros Ha; [reflexivity |].
  simpl in Ha. apply orb_false_iff in Ha as [Hc Ha].
  rewrite append_cons. simpl. rewrite Hc. auto.
Qed.

Lemma single_spaced_line a : has_char newline a = false ->
  single_spaced a = true.
Proof.
  intros Ha. rewrite <- (append_nil_r a). now rewrite single_spaced_prefix.
Qed.

(** ** The patterns *)

Lemma prefix_append p s : String.prefix p (p +:+ s) = true.
Proof.
  induction p as [| c p IH]; [now destruct s |].
  rewrite append_cons. simpl. destruct (ascii_dec c c); [exact IH | congruence].
Qed.

Lemma drop_append p s : Str.drop (String.length p) (p +:+ s) = s.
Proof.
  induction p as [| c p IH]; [now destruct s |].
  rewrite append_cons. simpl. exact IH.
Qed.

Lemma first_line_whole s : has_char newline s = false -> first_line s = s.
Proof.
  induction s as [| c s IH]; [reflexivity |].
  simpl. intros H. apply orb_false_iff in H as [Hc Hs].
  now rewrite Hc, IH.
Qed.

Lemma greedy_before_closing name :
  greedy_before "')" (name +:+ "')") = Some name.
Proof.
  induction name as [| c name IH]; [reflexivity |].
  rewrite append_cons. simpl greedy_before. now rewrite IH.
Qed.

Lemma match_step_line name : has_char newline name = false ->
  match_step ("@step('" +:+ name +:+ "')") = Some name.
Proof.
  intros Hname. unfold match_step. rewrite prefix_append.
  change 7%nat with (String.length "@step('"). rewrite drop_append.
  rewrite first_line_whole; [apply greedy_before_closing |].
  rewrite has_char_append, Hname. reflexivity.
Qed.

(** ** White space *)

Lemma space2_high c1 c2 : Text.space2 c1 c2 = true ->
  (128 <= Ascii.N_of_ascii c1)%N /\ (128 <= Ascii.N_of_ascii c2)%N.
Proof.
  unfold Text.space2. intros H.
  apply andb_true_iff in H as [H1 H2]. apply N.eqb_eq in H1.
  apply orb_true_iff in H2 as [H2 | H2]; apply N.eqb_eq in H2; lia.
Qed.

Lemma space3_high c1 c2 c3 : Text.space3 c1 c2 c3 = true ->
  (128 <= Ascii.N_of_ascii c1)%N /\ (128 <= Ascii.N_of_ascii c2)%N /\
  (128 <= Ascii.N_of_ascii c3)%N.
Proof.
  unfold Text.space3. intros H.
  repeat match goal with
         | H : (_ || _)%bool = true |- _ => apply orb_true_iff in H as [H | H]
         | H : (_ && _)%bool = true |- _ =>
             let H' := fresh H in apply andb_true_iff in H as [H H']
         | H : (_ =? _)%N = true |- _ => apply N.eqb_eq in H
         | H : (_ <=? _)%N = true |- _ => apply N.leb_le in H
         end; lia.
Qed.

(** a character of ASCII that is no white space is never taken off *)
Lemma rstrip_bytes_keeps c : (Ascii.N_of_ascii c < 128)%N ->
  Text.space1 c = false ->
  forall n l, (length l <= n)%nat -> c ∈ l -> c ∈ Text.rstrip_bytes l.
Proof.
  intros Hlow Hc. induction n as [| n IH]; intros l Hlen Hin.
  { destruct l; [inversion Hin | simpl in Hlen; lia]. }
  destruct l as [| c1 r1]; [inversion Hin |].
  simpl in Hlen. simpl.
  destruct (Text.space1 c1) eqn:E1.
  { apply IH; [lia |]. apply elem_of_cons in Hin as [-> | Hin]; [congruence | exact Hin]. }
  destruct r1 as [| c2 r2]; [exact Hin |].
  destruct (Text.space2 c2 c1) eqn:E2.
  { apply space2_high in E2 as [H2 H1]. simpl in Hlen. apply IH; [lia |].
    apply elem_of_cons in Hin as [-> | Hin]; [lia |].
    apply elem_of_cons in Hin as [-> | Hin]; [lia | exact Hin]. }
  destruct r2 as [| c3 r3]; [exact Hin |].
  destruct (Text.space3 c3 c2 c1) eqn:E3; [| exact Hin].
  apply space3_high in E3 as (H3 & H2 & H1). simpl in Hlen. apply IH; [lia |].
  apply elem_of_cons in Hin as [-> | Hin]; [lia |].
  apply elem_of_cons in Hin as [-> | Hin]; [lia |].
  apply elem_of_cons in Hin as [-> | Hin]; [lia | exact Hin].
Qed.

Lemma lstrip_bytes_keeps c l : (Ascii.N_of_ascii c < 128)%N ->
  Text.space1 c = false -> Text.lstrip_bytes (c :: l) = c :: l.
Proof.
  intros Hlow Hc. simpl. rewrite Hc.
  destruct l as [| c2 r2]; [reflexivity |].
  destruct (Text.space2 c c2) eqn:E2; [apply space2_high in E2; lia |].
  destruct r2 as [| c3 r3]; [reflexivity |].
  destruct (Text.space3 c c2 c3) eqn:E3; [apply space3_high in E3; lia |].
  reflexivity.
Qed.

Lemma strip_not_blank c s : (Ascii.N_of_ascii c < 128)%N ->
  Text.space1 c = false -> Text.strip (String c s) <> "".
Proof.
  intros Hlow Hc. unfold Text.strip, Text.lstrip, Text.rstrip.
  change (String.list_ascii_of_string (String c s))
    with (c :: String.list_ascii_of_string s).
  rewrite lstrip_bytes_keeps by assumption.
  rewrite String.list_ascii_of_string_of_list_ascii.
  intros Hempty.
  assert (Hin : c ∈ Text.rstrip_bytes (rev (c :: String.list_ascii_of_string s))).
  { apply (rstrip_bytes_keeps c Hlow Hc _ _ (le_n _)).
    apply list_elem_of_In, in_rev. rewrite rev_involutive. now left. }
  destruct (Text.rstrip_bytes _) as [| x k] eqn:E; [inversion Hin |].
  apply (f_equal String.list_ascii_of_string) in Hempty.
  rewrite String.list_ascii_of_string_of_list_ascii in Hempty.
  apply (f_equal (@length ascii)) in Hempty.
  rewrite length_rev in Hempty. discriminate.
Qed.

Lemma strip_after_space s : Text.strip (" " +:+ s) = Text.strip s.
Proof. reflexivity. Qed.

(** ** Reading the listing *)

Lemma well_listed_fields s : well_listed s = true ->
  has_char newline (listed_name s) = false /\
  has_char newline (listed_function s) = false /\
  has_char newline (listed_filepath s) = false /\
  has_char newline (listed_line s) = false /\
  has_char ":" (listed_filepath s) = false /\
  has_char ":" (listed_line s) = false /\
  Text.strip (listed_filepath s) = listed_filepath s /\
  Text.strip (listed_line s) = listed_line s.
Proof.
  unfold well_listed. intros H.
  repeat match goal with
         | H : (_ && _)%bool = true |- _ =>
             let H' := fresh H in apply andb_true_iff in H as [H H']
         | H : negb _ = true |- _ => apply negb_true_iff in H
         | H : String.eqb _ _ = true |- _ => apply String.eqb_eq in H
         end.
  repeat split; assumption.
Qed.

Lemma listed_text_single_spaced s : well_listed s = true ->
  single_spaced (listed_text s) = true.
Proof.
  intros Hs. destruct (well_listed_fields s Hs) as (Hn & Hf & Hp & Hl & _).
  unfold listed_text.
  rewrite single_spaced_prefix
    by (rewrite !has_char_append, Hn; reflexivity).
  change (("  Function: " +:+ listed_function s) +:+ ?r)
    with (String " " ((" Function: " +:+ listed_function s) +:+ r)).
  cbn [single_spaced]. rewrite Ascii.eqb_refl.
  change (Ascii.eqb " " newline) with false. cbn [negb andb].
  change (single_spaced ((" Function: " +:+ listed_function s)
            +:+ String newline
                  ("  Location: " +:+ listed_filepath s +:+ ":" +:+ listed_line s))
          = true).
  rewrite single_spaced_prefix
    by (rewrite !has_char_append, Hf; reflexivity).
  change ("  Location: " +:+ ?r) with (String " " (" Location: " +:+ r)).
  cbn [single_spaced]. rewrite Ascii.eqb_refl.
  change (Ascii.eqb " " newline) with false. cbn [negb andb].
  apply single_spaced_line.
  rewrite !has_char_append, Hp, Hl. reflexivity.
Qed.

Lemma for_cucu_steps_listed s chunks steps_cache : well_listed s = true ->
  for_cucu_steps (listed_text s :: chunks) steps_cache
  = for_cucu_steps chunks (dict_set (entry_of s).1 (entry_of s).2 steps_cache).
Proof.
  intros Hs.
  destruct (well_listed_fields s Hs) as (Hn & Hf & Hp & Hl & Hpc & Hlc & Hps & Hls).
  cbn [for_cucu_steps].
  assert (Hblank : String.eqb (Text.strip (listed_text s)) "" = false).
  { apply String.eqb_neq. unfold listed_text.
    change ("@step('" +:+ ?r) with (String "@" ("step('" +:+ r)).
    rewrite append_cons. apply strip_not_blank; [vm_compute |]; reflexivity. }
  rewrite Hblank. unfold listed_text.
  rewrite on_char_line by (rewrite !has_char_append, Hn; reflexivity).
  rewrite on_char_line by (rewrite !has_char_append, Hf; reflexivity).
  rewrite on_char_last
    by (rewrite !has_char_append, Hp, Hl; reflexivity).
  change ("" +:+ ?r) with r. cbn [unpack3 bind_exc].
  rewrite match_step_line by exact Hn. cbn [bind_exc].
  change ("  Location: " +:+ listed_filepath s +:+ ":" +:+ listed_line s)
    with ("  Location"
          +:+ String ":" (String " " (listed_filepath s)
                          +:+ String ":" (listed_line s))).
  rewrite on_char_line by reflexivity.
  rewrite on_char_line by (cbn [has_char]; rewrite Hpc; reflexivity).
  rewrite on_char_last by exact Hlc.
  change ("" +:+ ?r) with r. cbn [unpack3 bind_exc].
  change (Text.strip (String " " (listed_filepath s)))
    with (Text.strip (listed_filepath s)).
  now rewrite Hps, Hls.
Qed.

Lemma dict_set_fresh {V : Type} key (v : V) d :
  key ∉ map fst d -> dict_set key v d = (d ++ [(key, v)])%list.
Proof.
  induction d as [| [k w] d IH]; [reflexivity |]. simpl. intros Hfresh.
  apply not_elem_of_cons in Hfresh as [Hne Hfresh].
  destruct (String.eqb k key) eqn:E; [apply String.eqb_eq in E; congruence |].
  now rewrite IH.
Qed.

Lemma dict_set_keys {V : Type} key (v : V) d :
  map fst (dict_set key v d)
  = if bool_decide (key ∈ map fst d) then map fst d
    else (map fst d ++ [key])%list.
Proof.
  induction d as [| [k w] d IH]; [reflexivity |]. simpl.
  destruct (String.eqb k key) eqn:E.
  - apply String.eqb_eq in E. subst k. simpl.
    rewrite bool_decide_eq_true_2 by (left). reflexivity.
  - apply String.eqb_neq in E. simpl. rewrite IH.
    case_bool_decide as Hin.
    + rewrite bool_decide_eq_true_2 by (now right). reflexivity.
    + rewrite bool_decide_eq_false_2; [reflexivity |].
      intros Hc. apply elem_of_cons in Hc as [-> | Hc]; congruence.
Qed.

Lemma dict_set_NoDup {V : Type} key (v : V) d :
  NoDup (map fst d) -> NoDup (map fst (dict_set key v d)).
Proof.
  intros Hd. rewrite dict_set_keys. case_bool_decide as Hin; [exact Hd |].
  apply NoDup_app. split; [exact Hd |]. split.
  - intros x Hx Hx'. apply list_elem_of_singleton in Hx'. now subst x.
  - apply NoDup_singleton.
Qed.

Lemma for_cucu_steps_listing steps : forallb well_listed steps = true ->
  forall steps_cache,
    NoDup (map fst steps_cache ++ map listed_name steps) ->
    for_cucu_steps (map listed_text steps) steps_cache
    = inr (steps_cache ++ map entry_of steps)%list.
Proof.
  induction steps as [| s steps IH]; intros Hall steps_cache Hnd.
  - simpl. now rewrite app_nil_r.
  - simpl in Hall. apply andb_true_iff in Hall as [Hs Hall].
    cbn [map]. rewrite for_cucu_steps_listed by exact Hs.
    cbn [map] in Hnd.
    assert (Hfresh : listed_name s ∉ map fst steps_cache).
    { apply NoDup_app in Hnd as (_ & Hdis & _). intros Hin.
      apply (Hdis _ Hin). now left. }
    cbn [entry_of fst snd]. rewrite dict_set_fresh by exact Hfresh.
    rewrite IH; [now rewrite <- app_assoc | exact Hall |].
    rewrite map_app. cbn [map fst]. now rewrite <- app_assoc.
Qed.

Lemma for_cucu_steps_keys chunks : forall steps_cache found,
  for_cucu_steps chunks steps_cache = inr found ->
  NoDup (map fst steps_cache) ->
  NoDup (map fst found) /\
  Forall (fun chunk => Text.strip chunk = "" \/ step_chunk chunk) chunks.
Proof.
  induction chunks as [| chunk chunks IH]; intros steps_cache found Hrun Hnd.
  - injection Hrun as <-. split; [exact Hnd | constructor].
  - cbn [for_cucu_steps] in Hrun.
    destruct (String.eqb (Text.strip chunk) "") eqn:Hblank.
    { apply String.eqb_eq in Hblank.
      destruct (IH _ _ Hrun Hnd) as [Hk Hc]. split; [exact Hk |].
      constructor; [now left | exact Hc]. }
    destruct (Split.on_char newline "" chunk) as [| a [| b [| c [| d l]]]] eqn:Hlines;
      try discriminate.
    cbn [unpack3 bind_exc] in Hrun.
    destruct (match_step a) as [name |] eqn:Hname; [| discriminate].
    cbn [bind_exc] in Hrun.
    destruct (Split.on_char ":" "" c) as [| x [| p [| n [| y k]]]] eqn:Hloc;
      try discriminate.
    cbn [unpack3 bind_exc] in Hrun.
    destruct (IH _ _ Hrun (dict_set_NoDup _ _ _ Hnd)) as [Hk Hc].
    split; [exact Hk |]. constructor; [| exact Hc].
    right. unfold step_chunk. rewrite Hlines.
    exists a, b, c, name, x, p, n. auto.
Qed.

Section LoadingSteps.

Variable fuzz_ratio : string -> string -> Z.

(** [load_cucu_steps] reads back a listing of steps of distinct names,
    in its order, each step with the file path and the line of its
    [Location] line; a quote or a parenthesis in the name of a step is
    kept. *)
Theorem load_cucu_steps_reads_listing steps :
  forallb well_listed steps = true ->
  NoDup (map listed_name steps) ->
  load_cucu_steps (inr (listing steps)) = inr (map entry_of steps).
Proof.
  intros Hall Hnd. unfold load_cucu_steps, listing. cbn [bind_exc].
  destruct steps as [| s steps]; [reflexivity |].
  rewrite on_pair_join.
  - now rewrite for_cucu_steps_listing.
  - apply Forall_forall. intros chunk Hin.
    apply list_elem_of_fmap in Hin as (s' & -> & Hin).
    apply listed_text_single_spaced.
    rewrite forallb_forall in Hall. apply Hall. now apply list_elem_of_In.
  - discriminate.
Qed.

(** When [load_cucu_steps] returns, every part of the output between two
    blank lines is white space or is made of three lines, no more and no
    less, the first with the step pattern and the third with two colons,
    no more and no less; and no step name is kept twice. *)
Theorem load_cucu_steps_accepts_only output found :
  load_cucu_steps (inr output) = inr found ->
  Forall (fun chunk => Text.strip chunk = "" \/ step_chunk chunk)
    (Split.on_pair newline newline "" output) /\
  NoDup (map fst found).
Proof.
  unfold load_cucu_steps. cbn [bind_exc]. intros Hrun.
  destruct (for_cucu_steps_keys _ _ _ Hrun (NoDup_nil_2)) as [Hk Hc].
  split; assumption.
Qed.

(** [find_completions] without a cache loads the steps on its own, fails
    as the loading fails, and offers no step name twice, whatever the
    output of [cucu steps] repeats. *)
Theorem find_completions_offers_once cucu_steps_output step_fragment :
  match find_completions fuzz_ratio cucu_steps_output step_fragment None with
  | inl e => load_cucu_steps cucu_steps_output = inl e
  | inr items => NoDup (map fst items)
  end.
Proof.
  unfold find_completions.
  destruct (load_cucu_steps cucu_steps_output) as [e | found] eqn:Hload;
    [reflexivity |].
  cbn [bind_exc].
  assert (Hnd : NoDup (map fst found)).
  { unfold load_cucu_steps in Hload.
    destruct cucu_steps_output as [e | output]; [discriminate |].
    cbn [bind_exc] in Hload.
    exact (proj1 (for_cucu_steps_keys _ _ _ Hload (NoDup_nil_2))). }
  assert (Hsub : forall P `{!forall x, Decision (P x)},
             NoDup (map fst (map completion_of (filter P found)))).
  { intros P HP. rewrite map_map.
    rewrite (map_ext _ fst) by reflexivity.
    clear Hload. induction found as [| item found IH]; [constructor |].
    cbn [map] in Hnd. apply NoDup_cons in Hnd as [Hitem Hnd].
    rewrite filter_cons. destruct (decide (P item)); [| auto].
    cbn [map]. apply NoDup_cons. split; [| auto].
    intros Hin. apply Hitem.
    apply list_elem_of_fmap in Hin as (y & -> & Hy).
    apply list_elem_of_filter in Hy as [_ Hy].
    apply list_elem_of_fmap. eauto. }
  destruct (length _ =? 0)%nat.
  - rewrite sort_desc_perm. apply Hsub.
  - apply Hsub.
Qed.

End LoadingSteps.

(** ** The text inserted *)

Lemma remove_from_skip old a rest :
  remove_from old (String.length a) (a +:+ rest) = remove_from old O rest.
Proof.
  induction a as [| c a IH]; [reflexivity |].
  rewrite append_cons. exact IH.
Qed.

Lemma remove_from_none old s : Str.contains old s = false ->
  remove_from old O s = s.
Proof.
  induction s as [| c s IH]; [reflexivity |].
  intros H. cbn [Str.contains] in H. apply orb_false_iff in H as [Hp Hs].
  cbn [remove_from]. rewrite Hp, andb_false_r. now rewrite IH.
Qed.

Lemma remove_all_prefix old rest : old <> "" ->
  Str.contains old rest = false -> remove_all old (old +:+ rest) = rest.
Proof.
  intros Hold Hrest. unfold remove_all.
  destruct old as [| c old]; [congruence |].
  assert (Hp : String.prefix (String c old) (String c old +:+ rest) = true)
    by apply prefix_append.
  rewrite append_cons in *. cbn [remove_from]. rewrite Hp.
  change (String.eqb (String c old) "") with false. cbn [negb andb].
  replace (String.length (String c old) - 1)%nat with (String.length old)
    by (cbn [String.length]; lia).
  rewrite remove_from_skip. now apply remove_from_none.
Qed.

Section Answers.

Variable fuzz_ratio : string -> string -> Z.
Variable cucu_steps_output : exception + string.

Lemma find_completions_cached step_fragment steps_cache :
  exists found,
    find_completions fuzz_ratio cucu_steps_output step_fragment
      (Some steps_cache) = inr found /\
    Forall (fun completion => exists item,
              item ∈ steps_cache /\ completion = completion_of item) found.
Proof.
  unfold find_completions. cbn [bind_exc].
  assert (Hsub : forall P `{!forall x, Decision (P x)},
             Forall (fun completion => exists item : string * Location,
                       item ∈ steps_cache /\ completion = completion_of item)
               (map completion_of (filter P steps_cache))).
  { intros P HP. apply Forall_forall. intros completion Hin.
    apply list_elem_of_fmap in Hin as (item & -> & Hin).
    apply list_elem_of_filter in Hin as [_ Hin]. eauto. }
  destruct (length _ =? 0)%nat; eexists; (split; [reflexivity |]).
  - rewrite sort_desc_perm. apply Hsub.
  - apply Hsub.
Qed.

(** [completions] answers when the position is on a line of the
    document and that line, its leading white space taken off, starts
    with [Given], [When], [Then] or [And] and a space; in every other
    case it raises. *)
Theorem completions_answers_iff source position_line steps_cache :
  (exists items,
     completions fuzz_ratio cucu_steps_output source position_line steps_cache
     = inr items)
  <-> (exists raw,
         Split.on_char newline "" source !! position_line = Some raw /\
         match_keyword (Text.lstrip raw) <> None).
Proof.
  unfold completions. split.
  - intros [items H].
    destruct (Split.on_char newline "" source !! position_line) as [raw |];
      [| discriminate].
    exists raw. split; [reflexivity |]. cbn [bind_exc] in H.
    destruct (match_keyword (Text.lstrip raw)); [discriminate | discriminate].
  - intros (raw & -> & Hkw). cbn [bind_exc].
    destruct (match_keyword (Text.lstrip raw)) as [step_line |]; [| congruence].
    cbn [bind_exc].
    destruct (find_completions_cached (Text.lstrip raw) steps_cache)
      as (found & -> & _).
    cbn [bind_exc]. eauto.
Qed.

(** Each item of [completions] is a step of the cache, with its name as
    label and its place as detail; when the name starts with the text
    typed after the keyword and holds it nowhere else, the text inserted
    is the rest of the name. *)
Theorem completions_insert_rest source position_line steps_cache items
    raw step_line :
  completions fuzz_ratio cucu_steps_output source position_line steps_cache
  = inr items ->
  Split.on_char newline "" source !! position_line = Some raw ->
  match_keyword (Text.lstrip raw) = Some step_line ->
  step_line <> "" ->
  Forall (fun completion =>
            (exists location,
               (label completion, location) ∈ steps_cache /\
               detail completion
               = "defined in " +:+ filepath location +:+ ":" +:+ line location) /\
            forall rest,
              label completion = step_line +:+ rest ->
              Str.contains step_line rest = false ->
              insert_text completion = rest) items.
Proof.
  unfold completions. intros H Hraw Hkw Hne.
  rewrite Hraw in H. cbn [bind_exc] in H. rewrite Hkw in H. cbn [bind_exc] in H.
  destruct (find_completions_cached (Text.lstrip raw) steps_cache)
    as (found & Hfound & Hall).
  rewrite Hfound in H. cbn [bind_exc] in H. injection H as <-.
  apply Forall_forall. intros completion Hin.
  apply list_elem_of_fmap in Hin as ([name place] & -> & Hin).
  rewrite Forall_forall in Hall.
  destruct (Hall _ Hin) as ([name' location] & Hitem & Heq).
  unfold completion_of in Heq. cbn [fst snd] in Heq. injection Heq as -> ->.
  cbn [label detail insert_text]. split.
  - exists location. split; [exact Hitem | reflexivity].
  - intros rest -> Hrest. now apply remove_all_prefix.
Qed.

End Answers.

Lemma find_completions_by_prefix_witness :
  find_completions Editor.ratio (inr "") "I click" (Some Editor.cache)
  = inr (map completion_of
           (filter (fun item => Str.startswith item.1 "I click" = true)
              Editor.cache)).
Proof.
  apply find_completions_by_prefix.
  apply Exists_cons_tl, Exists_cons_hd. vm_compute. reflexivity.
Defined.

Lemma find_completions_by_ratio_witness :
  exists items,
    find_completions Editor.ratio (inr "") "I open the door"
      (Some Editor.cache) = inr items /\
    items ≡ₚ map completion_of
               (filter (fun item => 40 < Editor.ratio "I open the door" item.1)
                  Editor.cache) /\
    StronglySorted
      (fun a b => Editor.ratio b.1 "I open the door"
                  <= Editor.ratio a.1 "I open the door")
      items.
Proof.
  apply find_completions_by_ratio.
  repeat (apply Forall_cons; split; [vm_compute; reflexivity |]).
  apply Forall_nil_2.
Defined.

Lemma completions_never_by_prefix_witness :
  exists raw,
    Split.on_char newline "" Editor.document !! 3%nat = Some raw /\
    Forall (fun item => Str.startswith item.1 (Text.lstrip raw) = false)
      Editor.cache /\
    map label Editor.answer
    ≡ₚ map fst (filter (fun item => 40 < Editor.ratio (Text.lstrip raw) item.1)
                  Editor.cache).
Proof.
  apply (completions_never_by_prefix Editor.ratio (inr "")).
  - repeat (apply Forall_cons; split; [vm_compute; reflexivity |]).
    apply Forall_nil_2.
  - vm_compute. reflexivity.
Defined.

Lemma load_cucu_steps_reads_listing_witness :
  load_cucu_steps (inr (listing Editor.listed)) = inr (map entry_of Editor.listed).
Proof.
  apply load_cucu_steps_reads_listing.
  - vm_compute. reflexivity.
  - apply (bool_decide_unpack _). vm_compute. exact I.
Defined.

Lemma load_cucu_steps_accepts_only_witness :
  Forall (fun chunk => Text.strip chunk = "" \/ step_chunk chunk)
    (Split.on_pair newline newline "" (listing Editor.listed)) /\
  NoDup (map fst Editor.cache).
Proof.
  apply (load_cucu_steps_accepts_only (listing Editor.listed) Editor.cache).
  vm_compute. reflexivity.
Defined.

Lemma completions_insert_rest_witness :
  Forall (fun completion =>
            (exists location,
               (label completion, location) ∈ Editor.cache /\
               detail completion
               = "defined in " +:+ filepath location +:+ ":" +:+ line location) /\
            forall rest,
              label completion = "I click the" +:+ rest ->
              Str.contains "I click the" rest = false ->
              insert_text completion = rest) Editor.answer.
Proof.
  apply (completions_insert_rest Editor.ratio (inr "") Editor.document 3
           Editor.cache Editor.answer "    When I click the" "I click the").
  - vm_compute. reflexivity.
  - vm_compute. reflexivity.
  - vm_compute. reflexivity.
  - discriminate.
Defined.

(** ** Paths *)




















(** ** The entries *)



Section LogEntries.

Context {ext : Externals}.



End LogEntries.


